(** * Twitch chat collector: a shallow embedding of the protocol client,
    the token manager, the persistence helpers and the collector handlers,
    with the properties of the specification stated over them.

    Source files embedded here:
    - [twitch_irc.py]     ([TwitchIRCClient]): module [TwitchIRC]
    - [token_manager.py]  ([TokenManager]):    module [TokenManager]
    - [database.py]       ([DatabaseManager]): module [Database]
    - [collector.py]      ([TwitchChatCollector]): module [Collector]

    Python [str] values are modelled as [string], a sequence of 8-bit
    characters read as the code points U+0000..U+00FF. *)

From Stdlib Require Import ZArith Ascii String Lia.
From stdpp Require Import gmap strings list.

Local Open Scope Z_scope.

(** ** Python string primitives used by the sources *)

Module PyStr.

(** [s.startswith(p)] *)
Fixpoint startswith (p s : string) : bool :=
  match p, s with
  | EmptyString, _ => true
  | String _ _, EmptyString => false
  | String a p', String b s' => Ascii.eqb a b && startswith p' s'
  end.

(** [sub in s] *)
Fixpoint contains (sub s : string) : bool :=
  startswith sub s ||
  match s with
  | EmptyString => false
  | String _ s' => contains sub s'
  end.

(** [s.replace(old, new)] for a non-empty [old]: a single left-to-right
    scan that replaces each non-overlapping occurrence.  [skip] counts the
    characters of an occurrence that are still to be dropped. *)
Fixpoint replace_from (old new : string) (skip : nat) (s : string) : string :=
  match s with
  | EmptyString => EmptyString
  | String c s' =>
      match skip with
      | S k => replace_from old new k s'
      | O =>
          if startswith old s
          then new +:+ replace_from old new (Nat.pred (String.length old)) s'
          else String c (replace_from old new 0 s')
      end
  end.

Definition replace (old new s : string) : string := replace_from old new 0 s.

(** [s.split(sep)] for a one-character separator *)
Fixpoint split (sep : ascii) (s : string) : list string :=
  match s with
  | EmptyString => [EmptyString]
  | String c s' =>
      if Ascii.eqb c sep then EmptyString :: split sep s'
      else match split sep s' with
           | h :: t => String c h :: t
           | [] => [String c EmptyString]
           end
  end.

(** [s.split(sep, 1)] when [sep in s]: the text before and after the
    first separator; [None] when the separator does not occur. *)
Fixpoint split_once (sep : ascii) (s : string) : option (string * string) :=
  match s with
  | EmptyString => None
  | String c s' =>
      if Ascii.eqb c sep then Some (EmptyString, s')
      else match split_once sep s' with
           | Some (k, v) => Some (String c k, v)
           | None => None
           end
  end.

Definition code (c : ascii) : Z := Z.of_N (N_of_ascii c).

(** [str.lower] on one code point below 256 *)
Definition lower_char (c : ascii) : ascii :=
  let n := code c in
  if ((65 <=? n) && (n <=? 90)) || ((192 <=? n) && (n <=? 222) && negb (n =? 215))
  then ascii_of_N (Z.to_N (n + 32))
  else c.

Fixpoint lower (s : string) : string :=
  match s with
  | EmptyString => EmptyString
  | String c s' => String (lower_char c) (lower s')
  end.

(** Whitespace in the sense of [str.strip()] and [int()], below 256 *)
Definition is_space (c : ascii) : bool :=
  let n := code c in
  ((9 <=? n) && (n <=? 13)) || ((28 <=? n) && (n <=? 32))
  || (n =? 133) || (n =? 160).

Fixpoint lstrip (s : string) : string :=
  match s with
  | EmptyString => EmptyString
  | String c s' => if is_space c then lstrip s' else s
  end.

Fixpoint rstrip (s : string) : string :=
  match s with
  | EmptyString => EmptyString
  | String c s' =>
      match rstrip s' with
      | EmptyString => if is_space c then EmptyString else String c EmptyString
      | r => String c r
      end
  end.

Definition strip (s : string) : string := rstrip (lstrip s).

Definition digit_val (c : ascii) : option Z :=
  let n := code c in
  if (48 <=? n) && (n <=? 57) then Some (n - 48) else None.

(** The digit part of an integer literal accepted by [int()]: decimal
    digits, with single underscores allowed between two digits. *)
Fixpoint digits_value (acc : Z) (after_digit : bool) (s : string) : option Z :=
  match s with
  | EmptyString => if after_digit then Some acc else None
  | String c s' =>
      match digit_val c with
      | Some d => digits_value (10 * acc + d) true s'
      | None =>
          if Ascii.eqb c "_" && after_digit
          then digits_value acc false s'
          else None
      end
  end.

(** [int(s)]: [None] stands for [ValueError].  The interpreter's limit on
    the number of digits is not modelled. *)
Definition py_int (s : string) : option Z :=
  match strip s with
  | String "+" d => digits_value 0 false d
  | String "-" d => Z.opp <$> digits_value 0 false d
  | d => digits_value 0 false d
  end.

(** The longest prefix of [s] whose characters satisfy [p], and the rest *)
Fixpoint span (p : ascii -> bool) (s : string) : string * string :=
  match s with
  | EmptyString => (EmptyString, EmptyString)
  | String c s' =>
      if p c then let '(a, b) := span p s' in (String c a, b)
      else (EmptyString, s)
  end.

Fixpoint drop (n : nat) (s : string) : string :=
  match n, s with
  | O, _ => s
  | S _, EmptyString => EmptyString
  | S k, String _ s' => drop k s'
  end.

End PyStr.


(** ** Exceptions

    A Python call either returns a value or raises.  Only the exception
    classes the sources discriminate on are kept apart. *)

Inductive exn : Type :=
  | ValueError
  | KeyError
  | OSError
  | OverflowError
  | ConnectionClosed
  | RequestException
  | IntegrityError
  | OtherException.

Inductive result (A : Type) : Type :=
  | Ret (a : A)
  | Raise (e : exn).
Arguments Ret {A} a.
Arguments Raise {A} e.

Definition bind {A B : Type} (m : result A) (f : A -> result B) : result B :=
  match m with
  | Ret a => f a
  | Raise e => Raise e
  end.

Notation "'do' x <- m ; k" := (bind m (fun x => k))
  (at level 10, x name, m at level 100, k at level 200).

Global Instance exn_eq_dec : EqDecision exn.
Proof. solve_decision. Defined.

(** ** twitch_irc.py *)

Module TwitchIRC.
Import PyStr.

(** [self.tag_pattern = re.compile(r'@([^ ]+) ')] used with [.match]:
    the line starts with [@], then a non-empty run of characters other
    than the space, then a space.  The result is group 1. *)
Definition not_space (c : ascii) : bool := negb (Ascii.eqb c " ").

Definition tag_pattern_match (message : string) : option string :=
  match message with
  | String "@" rest =>
      match span not_space rest with
      | (EmptyString, _) => None
      | (g, String " " _) => Some g
      | (_, _) => None
      end
  | _ => None
  end.

(** The chained [value.replace('\\s', ' ').replace('\\:', ';').replace('\\\\', '\\')] *)
Definition unescape (value : string) : string :=
  replace "\\" "\" (replace "\:" ";" (replace "\s" " " value)).

(** One iteration of the loop over [tag_string.split(';')] *)
Definition parse_tag (tags : gmap string string) (tag : string) : gmap string string :=
  match split_once "=" tag with
  | Some (key, value) => <[key := unescape value]> tags
  | None => tags
  end.

Definition _parse_tags (message : string) : gmap string string :=
  match tag_pattern_match message with
  | None => ∅
  | Some tag_string => foldl parse_tag ∅ (split ";" tag_string)
  end.

(** [_parse_int]: [None] for a missing or empty value and for a value
    that [int()] rejects. *)
Definition _parse_int (value : option string) : option Z :=
  match value with
  | None => None
  | Some EmptyString => None
  | Some v => py_int v
  end.

(** [re.search(r'CLEARCHAT #([^ ]+)(?: :(.+))?', message)].
    [clearchat_at s] matches the pattern at the start of [s]; the search
    takes the leftmost position that matches.  Group 1 is the longest run
    of non-space characters, so the text after it is empty or starts with
    a space; group 2 is present when that text continues with [ :] and
    at least one character other than the line feed. *)
Definition not_newline (c : ascii) : bool := negb (Ascii.eqb c "010").

Definition clearchat_group2 (after : string) : option string :=
  match after with
  | String " " (String ":" u) =>
      match fst (span not_newline u) with
      | EmptyString => None
      | g2 => Some g2
      end
  | _ => None
  end.

Definition clearchat_at (s : string) : option (string * option string) :=
  if startswith "CLEARCHAT #" s then
    match span not_space (drop 11 s) with
    | (EmptyString, _) => None
    | (g1, after) => Some (g1, clearchat_group2 after)
    end
  else None.

Fixpoint clearchat_search (message : string) : option (string * option string) :=
  match clearchat_at message with
  | Some m => Some m
  | None =>
      match message with
      | EmptyString => None
      | String _ s' => clearchat_search s'
      end
  end.

Section Handlers.
(** The clock and the conversion of a millisecond timestamp are the
    environment of the handlers: [utcnow k] is the k-th reading of
    [datetime.utcnow()] within one call, [from_millis ms] is
    [datetime.utcfromtimestamp(ms / 1000.0)], which may raise. *)
Context {datetime : Type}.
Variable utcnow : nat -> datetime.
Variable from_millis : Z -> result datetime.

(** [_parse_tmi_timestamp], reading the clock at index [k] when it
    falls back to the current time. *)
Definition _parse_tmi_timestamp (k : nat) (tmi_sent_ts : option string)
  : result datetime :=
  match tmi_sent_ts with
  | None => Ret (utcnow k)
  | Some EmptyString => Ret (utcnow k)
  | Some v =>
      match py_int v with
      | None => Ret (utcnow k)
      | Some ms =>
          match from_millis ms with
          | Ret d => Ret d
          | Raise ValueError => Ret (utcnow k)
          | Raise OSError => Ret (utcnow k)
          | Raise e => Raise e
          end
      end
  end.

(** The event dictionary built by [_handle_clearchat] *)
Record ban_event : Type := {
  broadcaster_user_id : option string;
  broadcaster_user_login : string;
  broadcaster_user_name : string;
  user_id : option string;
  user_login : string;
  user_name : string;
  moderator_user_id : option string;
  moderator_user_login : option string;
  moderator_user_name : option string;
  reason : string;
  is_permanent : bool;
  ends_at : option datetime;
  banned_at : datetime
}.

(** [_handle_clearchat]: [Ret (Some ev)] when [on_ban] is called with
    [ev], [Ret None] when the handler returns without calling it.
    [on_ban] tells whether a callback is installed. *)
Definition _handle_clearchat (on_ban : bool) (message : string)
  : result (option ban_event) :=
  let tags := _parse_tags message in
  match clearchat_search message with
  | None => Ret None
  | Some (channel, None) => Ret None
  | Some (channel, Some target_user) =>
      if negb on_ban then Ret None
      else
        let ban_duration := _parse_int (tags !! "ban-duration") in
        let permanent := if ban_duration is None then true else false in
        do banned <- _parse_tmi_timestamp (if permanent then 0 else 1)%nat
                       (tags !! "tmi-sent-ts");
        Ret (Some {|
          broadcaster_user_id := tags !! "room-id";
          broadcaster_user_login := channel;
          broadcaster_user_name := channel;
          user_id := tags !! "target-user-id";
          user_login := strip target_user;
          user_name := strip target_user;
          moderator_user_id := None;
          moderator_user_login := None;
          moderator_user_name := None;
          reason := "";
          is_permanent := permanent;
          ends_at := if permanent then None else Some (utcnow 0%nat);
          banned_at := banned
        |})
  end.

(** The part of a [TwitchIRCClient] that the modelled methods read or
    write.  [websocket_open] tells whether [websocket.send] succeeds,
    [sent] lists the lines handed to [websocket.send], oldest first,
    and [on_ban] tells whether the ban callback is installed. *)
Record client : Type := {
  websocket_open : bool;
  sent : list string;
  joined_channels : gset string;
  on_ban : bool
}.

(** [await self.websocket.send(line)] *)
Definition send (c : client) (line : string) : result client :=
  if websocket_open c
  then Ret {| websocket_open := true;
              sent := sent c ++ [line];
              joined_channels := joined_channels c;
              on_ban := on_ban c |}
  else Raise ConnectionClosed.

(** The two handlers no property below depends on are parameters of the
    dispatcher: each returns the events it passed to its callback. *)
Context {message_event delete_event : Type}.
Variable _handle_privmsg : string -> result (list message_event).
Variable _handle_clearmsg : string -> result (list delete_event).

Inductive callback : Type :=
  | OnMessage (e : message_event)
  | OnDelete (e : delete_event)
  | OnBan (e : ban_event).

(** [_handle_message]: the new client state and the callbacks invoked.
    The outer [except Exception] logs and swallows every exception. *)
Definition _handle_message (c : client) (message : string)
  : client * list callback :=
  let body : result (client * list callback) :=
    if startswith "PING" message then
      do c' <- send c (replace "PING" "PONG" message);
      Ret (c', [])
    else if contains "PRIVMSG" message then
      do es <- _handle_privmsg message;
      Ret (c, OnMessage <$> es)
    else if contains "CLEARMSG" message then
      do es <- _handle_clearmsg message;
      Ret (c, OnDelete <$> es)
    else if contains "CLEARCHAT" message then
      do e <- _handle_clearchat (on_ban c) message;
      Ret (c, OnBan <$> option_list e)
    else Ret (c, [])
  in
  match body with
  | Ret r => r
  | Raise _ => (c, [])
  end.

(** [join_channel] *)
Definition normalize_channel (channel : string) : string :=
  lower (if startswith "#" channel then channel else "#" +:+ channel).

Definition join_channel (c : client) (channel : string) : result client :=
  let channel_lower := normalize_channel channel in
  if decide (channel_lower ∈ joined_channels c) then Ret c
  else
    do c' <- send c ("JOIN " +:+ channel_lower);
    Ret {| websocket_open := websocket_open c';
           sent := sent c';
           joined_channels := {[channel_lower]} ∪ joined_channels c';
           on_ban := on_ban c' |}.

(** [join_channels]: the loop stops at the first call that raises. *)
Fixpoint join_channels (c : client) (channels : list string) : result client :=
  match channels with
  | [] => Ret c
  | channel :: rest => do c' <- join_channel c channel; join_channels c' rest
  end.
End Handlers.

End TwitchIRC.

(** ** token_manager.py *)

Module TokenManager.

(** What [requests.get] / [requests.post] can do: answer with a status code
    and a body ([None] when [response.json()] raises), raise a
    [requests.exceptions.RequestException], or raise something else. *)
Inductive http_outcome (body : Type) : Type :=
  | Response (status_code : Z) (json : option body)
  | RequestFailed
  | CallFailed (e : exn).
Arguments Response {body} status_code json.
Arguments RequestFailed {body}.
Arguments CallFailed {body} e.

(** The JSON object answered by the validation endpoint; a key that is
    missing is [None]. *)
Record validation_data : Type := {
  login : option string;
  scopes : option (list string);
  expires_in : option Z
}.

(** The JSON object answered by the token endpoint *)
Record token_data : Type := {
  access_token : option string;
  refresh_token : option string
}.

(** Calls made to the collaborators, in the order they are made *)
Inductive call : Type :=
  | HttpValidate (access : string)
  | HttpRefresh (refresh : string)
  | EnvWrite (access refresh : string).

Global Instance call_eq_dec : EqDecision call.
Proof. solve_decision. Defined.

(** The collaborators.  Each answer may depend on the calls made so far,
    which covers a server that rotates refresh tokens. *)
Record world : Type := {
  http_get_validate : list call -> string -> http_outcome validation_data;
  http_post_token : list call -> string -> http_outcome token_data;
  env_file_write : list call -> string -> string -> result unit
}.

(** The body of the [try] block of [validate_token] once the response is
    there.  The f-string of the debug message reads ['login'] and
    ['expires_in'], so a missing key raises [KeyError]. *)
Definition validate_response (o : http_outcome validation_data)
  : result (option validation_data) :=
  match o with
  | RequestFailed => Raise RequestException
  | CallFailed e => Raise e
  | Response status_code json =>
      if status_code =? 200 then
        match json with
        | None => Raise ValueError
        | Some validation =>
            if bool_decide ("chat:read" ∈ default [] (scopes validation)) then
              match login validation, expires_in validation with
              | Some _, Some _ => Ret (Some validation)
              | _, _ => Raise KeyError
              end
            else Raise ValueError
        end
      else if status_code =? 401 then Ret None
      else Ret None
  end.

(** The two [except] clauses of [validate_token]: both log and return
    [None]. *)
Definition validate_except (r : result (option validation_data))
  : result (option validation_data) :=
  match r with
  | Ret v => Ret v
  | Raise RequestException => Ret None
  | Raise _ => Ret None
  end.

(** [validate_token]: the result and the calls made, given the calls [h]
    made before. *)
Definition validate_token (w : world) (h : list call) (access_token : string)
  : result (option validation_data) * list call :=
  match access_token with
  | EmptyString => (Ret None, h)
  | _ =>
      (validate_except (validate_response (http_get_validate w h access_token)),
       h ++ [HttpValidate access_token])
  end.

(** The body of the [try] block of [refresh_access_token] from the
    response up to the call of [update_env_file]: the token pair to save. *)
Definition refresh_response (o : http_outcome token_data)
  : result (string * string) :=
  match o with
  | RequestFailed => Raise RequestException
  | CallFailed e => Raise e
  | Response status_code json =>
      if status_code =? 200 then
        match json with
        | None => Raise ValueError
        | Some tokens =>
            match access_token tokens, refresh_token tokens with
            | Some a, Some r => Ret (a, r)
            | _, _ => Raise KeyError
            end
        end
      else if (status_code =? 400) || (status_code =? 401) then Raise ValueError
      else Raise ValueError
  end.

(** The two [except] clauses of [refresh_access_token]: a
    [RequestException] is turned into a [ValueError], anything else is
    raised again. *)
Definition refresh_except {A : Type} (r : result A) : result A :=
  match r with
  | Ret v => Ret v
  | Raise RequestException => Raise ValueError
  | Raise e => Raise e
  end.

(** [refresh_access_token], run without interleaving: the new token pair
    and the calls made.  The lock is taken and released inside. *)
Definition refresh_access_token (w : world) (h : list call) (refresh : string)
  : result (string * string) * list call :=
  match refresh with
  | EmptyString => (Raise ValueError, h)
  | _ =>
      let h1 := h ++ [HttpRefresh refresh] in
      match refresh_response (http_post_token w h refresh) with
      | Ret (a, r) =>
          let h2 := h1 ++ [EnvWrite a r] in
          (refresh_except (do _ <- env_file_write w h1 a r; Ret (a, r)), h2)
      | Raise e => (refresh_except (Raise e), h1)
      end
  end.

(** [expires_in < 600] with [validation.get('expires_in', float('inf'))] *)
Definition near_expiry (validation : validation_data) : bool :=
  match expires_in validation with
  | Some n => n <? 600
  | None => false
  end.

(** [get_valid_access_token], run without interleaving *)
Definition get_valid_access_token (w : world) (h : list call)
  (current_access_token current_refresh_token : string)
  : result string * list call :=
  match validate_token w h current_access_token with
  | (Raise e, h1) => (Raise e, h1)
  | (Ret None, h1) =>
      match refresh_access_token w h1 current_refresh_token with
      | (Ret (a, _), h2) => (Ret a, h2)
      | (Raise e, h2) => (Raise e, h2)
      end
  | (Ret (Some validation), h1) =>
      if near_expiry validation then
        match refresh_access_token w h1 current_refresh_token with
        | (Ret (a, _), h2) => (Ret a, h2)
        | (Raise _, h2) => (Ret current_access_token, h2)
        end
      else (Ret current_access_token, h1)
  end.

(** *** Concurrent callers

    The callers of [get_valid_access_token] are coroutines of one event
    loop: a coroutine runs until its next [await] that suspends, and the
    loop then resumes any coroutine that is ready.  A task is the state of
    one call between two suspensions; one step runs it up to the next
    suspension.  The answer to an HTTP call is fixed when the call is
    issued.  [fallback] is the current access token on the path of the
    proactive refresh, whose [except] clause returns it. *)
Inductive task : Type :=
  | TStart (access refresh : string)
  | TValidating (o : http_outcome validation_data) (access refresh : string)
  | TWaitLock (fallback : option string) (refresh : string)
  | TPosting (fallback : option string) (o : http_outcome token_data)
  | TSaving (fallback : option string) (saved : result unit) (a r : string)
  | TDone (r : result string).

(** [_refresh_lock] is an [asyncio.Lock]: [locked] with the queue of the
    tasks waiting for it, first come first served. *)
Record sched_state : Type := {
  tasks : list task;
  locked : bool;
  waiters : list nat;
  history : list call
}.

(** What the caller of [refresh_access_token] makes of its result *)
Definition finish (fallback : option string) (r : result string) : result string :=
  match r, fallback with
  | Ret a, _ => Ret a
  | Raise _, Some current => Ret current
  | Raise e, None => Raise e
  end.

(** Entry of [refresh_access_token] for task [i]: the check of the
    refresh token, then [async with self._refresh_lock], which goes on to
    the POST without suspending when the lock is free and nobody waits. *)
Definition enter_refresh (w : world) (i : nat) (fallback : option string)
  (refresh : string) (st : sched_state) : sched_state :=
  match refresh with
  | EmptyString =>
      {| tasks := <[i := TDone (finish fallback (Raise ValueError))]> (tasks st);
         locked := locked st; waiters := waiters st; history := history st |}
  | _ =>
      if negb (locked st) && bool_decide (waiters st = []) then
        {| tasks := <[i := TPosting fallback (http_post_token w (history st) refresh)]> (tasks st);
           locked := true;
           waiters := waiters st;
           history := history st ++ [HttpRefresh refresh] |}
      else
        {| tasks := <[i := TWaitLock fallback refresh]> (tasks st);
           locked := locked st;
           waiters := waiters st ++ [i];
           history := history st |}
  end.

(** Leaving the [async with] block *)
Definition release (i : nat) (r : result string) (st : sched_state) : sched_state :=
  {| tasks := <[i := TDone r]> (tasks st);
     locked := false;
     waiters := waiters st;
     history := history st |}.

(** One step of task [i]; [None] when the task does not exist, has
    returned, or waits for a lock it cannot take yet. *)
Definition step (w : world) (i : nat) (st : sched_state) : option sched_state :=
  match tasks st !! i with
  | None => None
  | Some (TDone _) => None
  | Some (TStart access refresh) =>
      match access with
      | EmptyString => Some (enter_refresh w i None refresh st)
      | _ =>
          Some {| tasks := <[i := TValidating (http_get_validate w (history st) access)
                                    access refresh]> (tasks st);
                  locked := locked st;
                  waiters := waiters st;
                  history := history st ++ [HttpValidate access] |}
      end
  | Some (TValidating o access refresh) =>
      match validate_except (validate_response o) with
      | Raise e =>
          Some {| tasks := <[i := TDone (Raise e)]> (tasks st);
                  locked := locked st; waiters := waiters st;
                  history := history st |}
      | Ret None => Some (enter_refresh w i None refresh st)
      | Ret (Some validation) =>
          if near_expiry validation
          then Some (enter_refresh w i (Some access) refresh st)
          else Some {| tasks := <[i := TDone (Ret access)]> (tasks st);
                       locked := locked st; waiters := waiters st;
                       history := history st |}
      end
  | Some (TWaitLock fallback refresh) =>
      match locked st, waiters st with
      | false, j :: rest =>
          if bool_decide (j = i) then
            Some {| tasks := <[i := TPosting fallback
                                      (http_post_token w (history st) refresh)]> (tasks st);
                    locked := true;
                    waiters := rest;
                    history := history st ++ [HttpRefresh refresh] |}
          else None
      | _, _ => None
      end
  | Some (TPosting fallback o) =>
      match refresh_response o with
      | Ret (a, r) =>
          Some {| tasks := <[i := TSaving fallback
                                      (env_file_write w (history st) a r)
                                      a r]> (tasks st);
                  locked := locked st;
                  waiters := waiters st;
                  history := history st ++ [EnvWrite a r] |}
      | Raise e => Some (release i (finish fallback (refresh_except (Raise e))) st)
      end
  | Some (TSaving fallback saved a r) =>
      Some (release i (finish fallback (refresh_except (do _ <- saved; Ret a))) st)
  end.

(** A schedule names the task to resume at each turn of the loop; a task
    that is not ready is passed over. *)
Fixpoint run (w : world) (schedule : list nat) (st : sched_state) : sched_state :=
  match schedule with
  | [] => st
  | i :: rest => run w rest (default st (step w i st))
  end.

Definition start (calls : list (string * string)) : sched_state :=
  {| tasks := (fun p => TStart (fst p) (snd p)) <$> calls;
     locked := false;
     waiters := [];
     history := [] |}.

Definition is_done (t : task) : bool :=
  match t with TDone _ => true | _ => false end.

Definition all_done (st : sched_state) : bool := forallb is_done (tasks st).

Definition is_refresh (c : call) : bool :=
  match c with HttpRefresh _ => true | _ => false end.

(** The number of refresh requests sent to the token endpoint *)
Definition refresh_calls (h : list call) : nat := length (filter is_refresh h).

(** Whether a task has sent its refresh request: it has once it holds the
    lock, and a task that went through [refresh_access_token] with a
    refresh token keeps it sent when done. *)
Definition posted (t : task) : nat :=
  match t with
  | TPosting _ _ | TSaving _ _ _ _ | TDone _ => 1
  | TStart _ _ | TValidating _ _ _ | TWaitLock _ _ => 0
  end.

(** A task that has not sent its request yet is bound to send it: its
    refresh token is not empty, and the answer it awaits from the
    validation endpoint, if any, reports the token invalid. *)
Definition bound_to_refresh (t : task) : Prop :=
  match t with
  | TStart _ refresh | TWaitLock _ refresh => refresh <> EmptyString
  | TValidating o _ refresh =>
      refresh <> EmptyString
      /\ validate_except (validate_response o) = Ret None
  | TPosting _ _ | TSaving _ _ _ _ | TDone _ => True
  end.

(** The validation endpoint reports every access token invalid, whatever
    was called before: the access token has expired. *)
Definition access_expired (w : world) : Prop :=
  forall (h : list call) (access : string),
    validate_except (validate_response (http_get_validate w h access)) = Ret None.

End TokenManager.

(** ** database.py, with the tables of models.py *)

Module Database.

(** [session.query(T).filter_by(col=value).first()]: the first row whose
    column equals [value].  A comparison with [None] is rendered
    [col IS NULL]; the columns queried here are all [NOT NULL], so it
    selects nothing. *)
Definition query_first {row : Type} (col : row -> option string)
  (value : option string) (table : list row) : option row :=
  match value with
  | None => None
  | Some v => head (filter (fun r => col r = Some v) table)
  end.

(** A row of [chat_messages], which is also the dictionary handed to
    [save_chat_message].  The columns that are keys or [NOT NULL] are
    fields; the remaining columns, which no operation reads, are kept in
    [cm_other] by name. *)
Record chat_message : Type := {
  cm_id : option string;
  cm_stream_id : option string;
  cm_broadcaster_user_id : option string;
  cm_chatter_user_id : option string;
  cm_other : list (string * option string)
}.

(** The [NOT NULL] columns of [ChatMessage] ([id] is the primary key) *)
Definition chat_message_not_null (m : chat_message) : bool :=
  bool_decide (is_Some (cm_id m)) && bool_decide (is_Some (cm_stream_id m))
  && bool_decide (is_Some (cm_broadcaster_user_id m))
  && bool_decide (is_Some (cm_chatter_user_id m)).

(** [save_chat_message]: the record returned and the table afterwards; a
    commit that violates a constraint raises and leaves the table as it
    was. *)
Definition save_chat_message (table : list chat_message) (message_data : chat_message)
  : result chat_message * list chat_message :=
  match query_first cm_id (cm_id message_data) table with
  | Some existing => (Ret existing, table)
  | None =>
      if chat_message_not_null message_data
      then (Ret message_data, table ++ [message_data])
      else (Raise IntegrityError, table)
  end.

(** The dictionary handed to [save_deleted_event] *)
Record deleted_event : Type := {
  de_stream_id : option string;
  de_broadcaster_user_id : option string;
  de_message_id : option string;
  de_other : list (string * option string)
}.

(** A row of [message_deleted_events]: the autoincremented [id] and the
    event. *)
Record deleted_row : Type := {
  dr_id : nat;
  dr_event : deleted_event
}.

Definition dr_message_id (r : deleted_row) : option string :=
  de_message_id (dr_event r).

Definition deleted_event_not_null (e : deleted_event) : bool :=
  bool_decide (is_Some (de_broadcaster_user_id e))
  && bool_decide (is_Some (de_message_id e)).

(** [save_deleted_event] *)
Definition save_deleted_event (table : list deleted_row) (event_data : deleted_event)
  : result deleted_row * list deleted_row :=
  match query_first dr_message_id (de_message_id event_data) table with
  | Some existing => (Ret existing, table)
  | None =>
      if deleted_event_not_null event_data
      then
        let event := {| dr_id := S (length table); dr_event := event_data |} in
        (Ret event, table ++ [event])
      else (Raise IntegrityError, table)
  end.

(** The dictionaries handed to [save_banned_event] and
    [save_unbanned_event], which insert without looking for a duplicate. *)
Record moderation_event : Type := {
  me_stream_id : option string;
  me_broadcaster_user_id : option string;
  me_user_id : option string;
  me_other : list (string * option string)
}.

Definition moderation_event_not_null (e : moderation_event) : bool :=
  bool_decide (is_Some (me_broadcaster_user_id e))
  && bool_decide (is_Some (me_user_id e)).

Definition save_moderation_event (table : list (nat * moderation_event))
  (event_data : moderation_event)
  : result (nat * moderation_event) * list (nat * moderation_event) :=
  if moderation_event_not_null event_data
  then
    let event := (S (length table), event_data) in
    (Ret event, table ++ [event])
  else (Raise IntegrityError, table).

Definition save_banned_event := save_moderation_event.
Definition save_unbanned_event := save_moderation_event.

(** The stream descriptor built by [TwitchAPIClient._parse_streams] and
    stored by [save_stream] *)
Record stream_info : Type := {
  si_stream_id : option string;
  si_user_id : option string;
  si_user_login : option string;
  si_other : list (string * option string)
}.

Definition stream_not_null (s : stream_info) : bool :=
  bool_decide (is_Some (si_stream_id s)) && bool_decide (is_Some (si_user_id s))
  && bool_decide (is_Some (si_user_login s)).

(** [save_stream]: update the row with the same [stream_id], or insert *)
Definition save_stream (table : list stream_info) (stream_data : stream_info)
  : result stream_info * list stream_info :=
  match query_first si_stream_id (si_stream_id stream_data) table with
  | Some _ =>
      if stream_not_null stream_data
      then (Ret stream_data,
            (fun r => if bool_decide (si_stream_id r = si_stream_id stream_data)
                      then stream_data else r) <$> table)
      else (Raise IntegrityError, table)
  | None =>
      if stream_not_null stream_data
      then (Ret stream_data, table ++ [stream_data])
      else (Raise IntegrityError, table)
  end.

(** The tables *)
Record database : Type := {
  streams : list stream_info;
  chat_messages : list chat_message;
  message_deleted_events : list deleted_row;
  user_banned_events : list (nat * moderation_event);
  user_unbanned_events : list (nat * moderation_event)
}.

(** The number of rows of [table] whose column [col] holds [key] *)
Definition count_key {row : Type} (col : row -> option string) (key : string)
  (table : list row) : nat :=
  length (filter (fun r => col r = Some key) table).



End Database.

(** ** collector.py *)

Module Collector.
Import Database.

(** Truth value of an [Optional[str]]: [None] and the empty string are
    false. *)
Definition truthy (o : option string) : bool :=
  match o with
  | Some (String _ _) => true
  | _ => false
  end.

(** The state of a [TwitchChatCollector] that the handlers read or write:
    [channel_streams] (user id to stream id), the database, and the user
    ids passed to [twitch_client.get_streams] so far, oldest first. *)
Record collector : Type := {
  channel_streams : gmap (option string) (option string);
  db : database;
  polled : list (option string)
}.

(** [self.channel_streams.get(user_id)] *)
Definition get_stream_id (c : collector) (user_id : option string) : option string :=
  default None (channel_streams c !! user_id).

Definition set_stream_id (c : collector) (user_id stream_id : option string)
  : collector :=
  {| channel_streams := <[user_id := stream_id]> (channel_streams c);
     db := db c;
     polled := polled c |}.

Definition with_streams (c : collector) (t : list stream_info) : collector :=
  {| channel_streams := channel_streams c;
     db := {| streams := t;
              chat_messages := chat_messages (db c);
              message_deleted_events := message_deleted_events (db c);
              user_banned_events := user_banned_events (db c);
              user_unbanned_events := user_unbanned_events (db c) |};
     polled := polled c |}.

Definition with_chat_messages (c : collector) (t : list chat_message) : collector :=
  {| channel_streams := channel_streams c;
     db := {| streams := streams (db c);
              chat_messages := t;
              message_deleted_events := message_deleted_events (db c);
              user_banned_events := user_banned_events (db c);
              user_unbanned_events := user_unbanned_events (db c) |};
     polled := polled c |}.

Definition with_deleted (c : collector) (t : list deleted_row) : collector :=
  {| channel_streams := channel_streams c;
     db := {| streams := streams (db c);
              chat_messages := chat_messages (db c);
              message_deleted_events := t;
              user_banned_events := user_banned_events (db c);
              user_unbanned_events := user_unbanned_events (db c) |};
     polled := polled c |}.

Definition with_banned (c : collector) (t : list (nat * moderation_event)) : collector :=
  {| channel_streams := channel_streams c;
     db := {| streams := streams (db c);
              chat_messages := chat_messages (db c);
              message_deleted_events := message_deleted_events (db c);
              user_banned_events := t;
              user_unbanned_events := user_unbanned_events (db c) |};
     polled := polled c |}.

Definition with_unbanned (c : collector) (t : list (nat * moderation_event)) : collector :=
  {| channel_streams := channel_streams c;
     db := {| streams := streams (db c);
              chat_messages := chat_messages (db c);
              message_deleted_events := message_deleted_events (db c);
              user_banned_events := user_banned_events (db c);
              user_unbanned_events := t |};
     polled := polled c |}.

Definition with_poll (c : collector) (user_id : option string) : collector :=
  {| channel_streams := channel_streams c;
     db := db c;
     polled := polled c ++ [user_id] |}.

(** What a handler did with its event: it called the [save_...] method
    with [e], which returned ([Persisted]) or raised ([SaveRaised], logged
    by the handler's [except]); it logged a warning and returned
    ([Skipped]); or an exception reached the handler's [except] before any
    [save_...] call ([Failed]). *)
Inductive outcome (E : Type) : Type :=
  | Persisted (e : E)
  | SaveRaised (e : E) (x : exn)
  | Skipped
  | Failed (x : exn).
Arguments Persisted {E} e.
Arguments SaveRaised {E} e x.
Arguments Skipped {E}.
Arguments Failed {E} x.


Section Handlers.
(** The polling collaborator, [self.twitch_client.get_streams(user_id=...)]:
    the live streams of the user, or an exception. *)
Variable get_streams : option string -> result (list stream_info).

(** [update_stream_status] *)
Definition update_stream_status (c : collector) (user_id : option string)
  : result unit * collector :=
  let c := with_poll c user_id in
  match get_streams user_id with
  | Raise x => (Raise x, c)
  | Ret (stream_info :: _) =>
      match save_stream (streams (db c)) stream_info with
      | (Raise x, _) => (Raise x, c)
      | (Ret _, t) =>
          (Ret tt, set_stream_id (with_streams c t) user_id (si_stream_id stream_info))
      end
  | Ret [] =>
      if truthy (get_stream_id c user_id)
      then (Ret tt, set_stream_id c user_id None)
      else (Ret tt, c)
  end.

Definition attach_message (event : chat_message) (stream_id : option string)
  : chat_message :=
  {| cm_id := cm_id event;
     cm_stream_id := stream_id;
     cm_broadcaster_user_id := cm_broadcaster_user_id event;
     cm_chatter_user_id := cm_chatter_user_id event;
     cm_other := cm_other event |}.

Definition persist_message (c : collector) (event : chat_message)
  : collector * outcome chat_message :=
  match save_chat_message (chat_messages (db c)) event with
  | (Ret _, t) => (with_chat_messages c t, Persisted event)
  | (Raise x, _) => (c, SaveRaised event x)
  end.

(** [_handle_message] *)
Definition _handle_message (c : collector) (event : chat_message)
  : collector * outcome chat_message :=
  let broadcaster_user_id := cm_broadcaster_user_id event in
  let stream_id := get_stream_id c broadcaster_user_id in
  if truthy stream_id then
    persist_message c (attach_message event stream_id)
  else
    match update_stream_status c broadcaster_user_id with
    | (Raise x, c') => (c', Failed x)
    | (Ret _, c') =>
        let stream_id := get_stream_id c' broadcaster_user_id in
        if truthy stream_id
        then persist_message c' (attach_message event stream_id)
        else (c', Skipped)
    end.

Definition attach_deleted (event : deleted_event) (stream_id : option string)
  : deleted_event :=
  {| de_stream_id := stream_id;
     de_broadcaster_user_id := de_broadcaster_user_id event;
     de_message_id := de_message_id event;
     de_other := de_other event |}.

(** [_handle_delete] *)
Definition _handle_delete (c : collector) (event : deleted_event)
  : collector * outcome deleted_event :=
  let broadcaster_user_id := de_broadcaster_user_id event in
  let stream_id := get_stream_id c broadcaster_user_id in
  if truthy stream_id then
    let event := attach_deleted event stream_id in
    match save_deleted_event (message_deleted_events (db c)) event with
    | (Ret _, t) => (with_deleted c t, Persisted event)
    | (Raise x, _) => (c, SaveRaised event x)
    end
  else (c, Skipped).

Definition attach_moderation (event : moderation_event) (stream_id : option string)
  : moderation_event :=
  {| me_stream_id := stream_id;
     me_broadcaster_user_id := me_broadcaster_user_id event;
     me_user_id := me_user_id event;
     me_other := me_other event |}.

(** [_handle_ban] *)
Definition _handle_ban (c : collector) (event : moderation_event)
  : collector * outcome moderation_event :=
  let broadcaster_user_id := me_broadcaster_user_id event in
  let stream_id := get_stream_id c broadcaster_user_id in
  if truthy stream_id then
    let event := attach_moderation event stream_id in
    match save_banned_event (user_banned_events (db c)) event with
    | (Ret _, t) => (with_banned c t, Persisted event)
    | (Raise x, _) => (c, SaveRaised event x)
    end
  else (c, Skipped).

(** [_handle_unban] *)
Definition _handle_unban (c : collector) (event : moderation_event)
  : collector * outcome moderation_event :=
  let broadcaster_user_id := me_broadcaster_user_id event in
  let stream_id := get_stream_id c broadcaster_user_id in
  if truthy stream_id then
    let event := attach_moderation event stream_id in
    match save_unbanned_event (user_unbanned_events (db c)) event with
    | (Ret _, t) => (with_unbanned c t, Persisted event)
    | (Raise x, _) => (c, SaveRaised event x)
    end
  else (c, Skipped).

End Handlers.

End Collector.

(** ** Notions of the specification that the sources do not define *)

Module Reference.
Import PyStr.

(** The escape rules of the tag codec as the specification words them,
    read left to right one escape sequence at a time: [\s] is a space,
    [\:] a semicolon, [\\] a backslash, and any other character stands for
    itself. *)
Fixpoint unescape_by_the_rules (value : string) : string :=
  match value with
  | String "\" (String "s" rest) => String " " (unescape_by_the_rules rest)
  | String "\" (String ":" rest) => String ";" (unescape_by_the_rules rest)
  | String "\" (String "\" rest) => String "\" (unescape_by_the_rules rest)
  | String c rest => String c (unescape_by_the_rules rest)
  | EmptyString => EmptyString
  end.

(** The text that follows the first occurrence of [lit] in [s] *)
Fixpoint after_first (lit s : string) : option string :=
  if startswith lit s then Some (drop (String.length lit) s)
  else match s with
       | EmptyString => None
       | String _ s' => after_first lit s'
       end.


End Reference.

(** ** Sample environments for the instances

    The clock and the timestamp conversion are instantiated with integers:
    the k-th reading of the clock is [k], and a millisecond timestamp
    converts to itself. *)

Definition sample_utcnow (k : nat) : Z := Z.of_nat k.
Definition sample_from_millis (ms : Z) : result Z := Ret ms.
Definition sample_handler (message : string) : result (list unit) := Ret [].

(** A token endpoint with single-use refresh tokens: the first request
    that presents [refresh-0] is answered with a new pair, every later
    request with status 400.  The validation endpoint answers 401. *)
Definition rotating_world : TokenManager.world :=
  {| TokenManager.http_get_validate := fun _ _ => TokenManager.Response 401 None;
     TokenManager.http_post_token := fun h refresh =>
       if bool_decide (refresh = "refresh-0")
          && bool_decide (TokenManager.refresh_calls h = 0%nat)
       then TokenManager.Response 200
              (Some {| TokenManager.access_token := Some "access-1";
                       TokenManager.refresh_token := Some "refresh-1" |})
       else TokenManager.Response 400 None;
     TokenManager.env_file_write := fun _ _ _ => Ret tt |}.

(** A validation endpoint that answers with the given status and body;
    the token endpoint answers with the given outcome. *)
Definition fixed_world (status : Z) (body : option TokenManager.validation_data)
  (post : TokenManager.http_outcome TokenManager.token_data) : TokenManager.world :=
  {| TokenManager.http_get_validate := fun _ _ => TokenManager.Response status body;
     TokenManager.http_post_token := fun _ _ => post;
     TokenManager.env_file_write := fun _ _ _ => Ret tt |}.

Definition sample_validation (seconds : Z) : TokenManager.validation_data :=
  {| TokenManager.login := Some "collector";
     TokenManager.scopes := Some ["chat:read"];
     TokenManager.expires_in := Some seconds |}.

Definition sample_tokens : TokenManager.token_data :=
  {| TokenManager.access_token := Some "access-1";
     TokenManager.refresh_token := Some "refresh-1" |}.

Definition sample_client : TwitchIRC.client :=
  {| TwitchIRC.websocket_open := true;
     TwitchIRC.sent := [];
     TwitchIRC.joined_channels := ∅;
     TwitchIRC.on_ban := true |}.

(** A chat message, a deletion and a live stream of the channel of user
    [1234], and a collector that knows no stream id yet. *)
Definition sample_stream : Database.stream_info :=
  {| Database.si_stream_id := Some "stream-1";
     Database.si_user_id := Some "1234";
     Database.si_user_login := Some "dallas";
     Database.si_other := [] |}.

Definition live_streams (user_id : option string)
  : result (list Database.stream_info) :=
  Ret [sample_stream].


Definition sample_stored_message : Database.chat_message :=
  {| Database.cm_id := Some "msg-1";
     Database.cm_stream_id := Some "stream-1";
     Database.cm_broadcaster_user_id := Some "1234";
     Database.cm_chatter_user_id := Some "5678";
     Database.cm_other := [] |}.


Definition empty_collector : Collector.collector :=
  {| Collector.channel_streams := ∅;
     Collector.db := {| Database.streams := [];
                        Database.chat_messages := [];
                        Database.message_deleted_events := [];
                        Database.user_banned_events := [];
                        Database.user_unbanned_events := [] |};
     Collector.polled := [] |}.

(** ** The refresh lock seen from the tasks (token_manager.py) *)

Module TokenLock.
Import TokenManager.

(** A task is inside the [async with self._refresh_lock] block from the
    moment it has sent its request until it has saved the tokens or
    failed. *)
Definition holds (t : task) : nat :=
  match t with
  | TPosting _ _ | TSaving _ _ _ _ => 1
  | TStart _ _ | TValidating _ _ _ | TWaitLock _ _ | TDone _ => 0
  end.

Definition is_waiting (t : task) : bool :=
  match t with TWaitLock _ _ => true | _ => false end.

(** The lock is taken exactly when one task is inside the block, and the
    queue lists, without repetition, the tasks suspended in [acquire]. *)
Record consistent (st : sched_state) : Prop := {
  lock_holder : sum_list (holds <$> tasks st) = if locked st then 1%nat else 0%nat;
  queue_nodup : NoDup (waiters st);
  queue_waiting : forall j, j ∈ waiters st <->
                   exists t, tasks st !! j = Some t /\ is_waiting t = true
}.

(** How far a call has got: every step of a task moves it forward. *)
Definition progress (t : task) : nat :=
  match t with
  | TStart _ _ => 0
  | TValidating _ _ _ => 1
  | TWaitLock _ _ => 2
  | TPosting _ _ => 3
  | TSaving _ _ _ _ => 4
  | TDone _ => 5
  end.

End TokenLock.

(** ** twitch_irc.py: the chat-message and deletion handlers *)

Module TwitchIRCEvents.
Import PyStr TwitchIRC.

(** [re.search(r'PRIVMSG #([^ ]+) :(.+)', message)].  At a position, the
    pattern needs [PRIVMSG #], a non-empty run of non-space characters,
    then [ :] and at least one character other than the line feed.  The
    run is the longest one: a shorter run is followed by a non-space
    character, so backtracking finds nothing more. *)
Definition privmsg_at (s : string) : option (string * string) :=
  if startswith "PRIVMSG #" s then
    match span not_space (drop 9 s) with
    | (EmptyString, _) => None
    | (g1, String " " (String ":" u)) =>
        match fst (span not_newline u) with
        | EmptyString => None
        | g2 => Some (g1, g2)
        end
    | (_, _) => None
    end
  else None.

Fixpoint privmsg_search (message : string) : option (string * string) :=
  match privmsg_at message with
  | Some m => Some m
  | None =>
      match message with
      | EmptyString => None
      | String _ s' => privmsg_search s'
      end
  end.

(** [re.search(r'CLEARMSG #([^ ]+)', message)]: group 1 *)
Definition clearmsg_at (s : string) : option string :=
  if startswith "CLEARMSG #" s then
    match fst (span not_space (drop 10 s)) with
    | EmptyString => None
    | g1 => Some g1
    end
  else None.

Fixpoint clearmsg_search (message : string) : option string :=
  match clearmsg_at message with
  | Some m => Some m
  | None =>
      match message with
      | EmptyString => None
      | String _ s' => clearmsg_search s'
      end
  end.

Section Handlers.
Context {datetime : Type}.
Variable utcnow : nat -> datetime.
Variable from_millis : Z -> result datetime.

(** The event dictionary built by [_handle_privmsg] *)
Record message_event : Type := {
  id : option string;
  broadcaster_user_id : option string;
  broadcaster_user_login : string;
  broadcaster_user_name : string;
  chatter_user_id : option string;
  chatter_user_login : string;
  chatter_user_name : option string;
  message_text : string;
  color : option string;
  badges : string;
  bits : option Z;
  message_type : string;
  is_subscriber : bool;
  is_moderator : bool;
  is_vip : bool;
  sent_at : datetime
}.

(** [_handle_privmsg]: the event passed to [on_message], if any.
    [on_message] tells whether the callback is installed. *)
Definition _handle_privmsg (on_message : bool) (message : string)
  : result (option message_event) :=
  let tags := _parse_tags message in
  match privmsg_search message with
  | None => Ret None
  | Some (channel, body) =>
      let text := strip body in
      if negb on_message then Ret None
      else
        do sent <- _parse_tmi_timestamp utcnow from_millis 0%nat
                     (tags !! "tmi-sent-ts");
        Ret (Some {|
          id := tags !! "id";
          broadcaster_user_id := tags !! "room-id";
          broadcaster_user_login := channel;
          broadcaster_user_name := channel;
          chatter_user_id := tags !! "user-id";
          chatter_user_login :=
            default (lower (default "" (tags !! "display-name"))) (tags !! "login");
          chatter_user_name := tags !! "display-name";
          message_text := text;
          color := tags !! "color";
          badges := default "" (tags !! "badges");
          bits := _parse_int (tags !! "bits");
          message_type := "chat";
          is_subscriber := bool_decide (tags !! "subscriber" = Some "1");
          is_moderator := bool_decide (tags !! "mod" = Some "1");
          is_vip := contains "vip" (default "" (tags !! "badges"));
          sent_at := sent
        |})
  end.

(** The event dictionary built by [_handle_clearmsg] *)
Record delete_event : Type := {
  d_broadcaster_user_id : option string;
  d_broadcaster_user_login : string;
  d_broadcaster_user_name : string;
  d_target_user_id : option string;
  d_target_user_login : option string;
  d_target_user_name : option string;
  d_message_id : option string;
  d_message_text : string;
  d_deleted_at : datetime
}.

(** [_handle_clearmsg] *)
Definition _handle_clearmsg (on_delete : bool) (message : string)
  : result (option delete_event) :=
  let tags := _parse_tags message in
  match clearmsg_search message with
  | None => Ret None
  | Some channel =>
      if negb on_delete then Ret None
      else
        Ret (Some {|
          d_broadcaster_user_id := tags !! "room-id";
          d_broadcaster_user_login := channel;
          d_broadcaster_user_name := channel;
          d_target_user_id := tags !! "target-user-id";
          d_target_user_login := tags !! "login";
          d_target_user_name := tags !! "login";
          d_message_id := tags !! "target-msg-id";
          d_message_text := "";
          d_deleted_at := utcnow 0%nat
        |})
  end.

(** The dispatcher of [TwitchIRC] with the two handlers plugged in.
    [on_message] and [on_delete] tell whether those callbacks are
    installed; the ban callback is a field of the client. *)
Definition handle_line (on_message on_delete : bool) (c : client) (message : string)
  : client * list (@callback datetime message_event delete_event) :=
  TwitchIRC._handle_message utcnow from_millis
    (fun m => do e <- _handle_privmsg on_message m; Ret (option_list e))
    (fun m => do e <- _handle_clearmsg on_delete m; Ret (option_list e))
    c message.

End Handlers.

End TwitchIRCEvents.

(** ** config_loader.py *)

Module ConfigLoader.
Import PyStr.

(** One entry of [channels:] as [yaml.safe_load] returns it, with values
    of the documented types; a missing key is [None]. *)
Record channel_data : Type := {
  cd_user_login : option string;
  cd_user_id : option string;
  cd_display_name : option string;
  cd_enabled : option bool;
  cd_notes : option string
}.

Record ChannelConfig : Type := {
  user_login : option string;
  user_id : option string;
  display_name : option string;
  enabled : bool;
  notes : option string
}.

(** Truth value of an [Optional[str]] *)
Definition truthy (o : option string) : bool :=
  match o with
  | Some (String _ _) => true
  | _ => false
  end.

(** [ChannelConfig(...)] as called by [load], with [__post_init__] *)
Definition make_channel (ch_data : channel_data) : result ChannelConfig :=
  let ch := {| user_login := cd_user_login ch_data;
               user_id := cd_user_id ch_data;
               display_name := cd_display_name ch_data;
               enabled := default true (cd_enabled ch_data);
               notes := cd_notes ch_data |} in
  if negb (truthy (user_login ch)) && negb (truthy (user_id ch))
  then Raise ValueError
  else Ret ch.

(** [get_identifier]: [self.user_login or self.user_id] *)
Definition get_identifier (ch : ChannelConfig) : option string :=
  if truthy (user_login ch) then user_login ch else user_id ch.

(** The [scheduler:] mapping of the file *)
Record scheduler_data : Type := {
  sd_interval_minutes : option Z;
  sd_reconnect_interval : option Z;
  sd_max_reconnect_attempts : option Z
}.

Record SchedulerConfig : Type := {
  interval_minutes : Z;
  reconnect_interval : Z;
  max_reconnect_attempts : Z
}.

Record CollectorConfig : Type := {
  channels : list ChannelConfig;
  scheduler : SchedulerConfig
}.

Definition get_enabled_channels (config : CollectorConfig) : list ChannelConfig :=
  filter (fun ch => enabled ch = true) (channels config).

(** The document [yaml.safe_load] returns: [None] for an empty file, else
    a mapping, of which [load] reads two keys. *)
Record yaml_data : Type := {
  yd_channels : option (list channel_data);
  yd_scheduler : option scheduler_data;
  yd_other_keys : bool
}.

(** [not data] *)
Definition falsy (data : option yaml_data) : bool :=
  match data with
  | None => true
  | Some d =>
      match yd_channels d, yd_scheduler d with
      | None, None => negb (yd_other_keys d)
      | _, _ => false
      end
  end.

(** The loop of [load] over the entries: an entry whose construction
    raises [ValueError] is logged and skipped. *)
Fixpoint load_channels (entries : list channel_data) : result (list ChannelConfig) :=
  match entries with
  | [] => Ret []
  | ch_data :: rest =>
      match make_channel ch_data with
      | Ret channel => do channels <- load_channels rest; Ret (channel :: channels)
      | Raise ValueError => load_channels rest
      | Raise e => Raise e
      end
  end.

(** [ConfigLoader.load]; the file is [None] when the path does not exist,
    which raises [FileNotFoundError], a subclass of [OSError]. *)
Definition load (file : option (option yaml_data)) : result CollectorConfig :=
  match file with
  | None => Raise OSError
  | Some data =>
      if falsy data then Raise ValueError
      else
        let channels_data := default [] (data ≫= yd_channels) in
        do channels <- load_channels channels_data;
        let scheduler_data :=
          default {| sd_interval_minutes := None;
                     sd_reconnect_interval := None;
                     sd_max_reconnect_attempts := None |}
                  (data ≫= yd_scheduler) in
        Ret {| channels := channels;
               scheduler :=
                 {| interval_minutes := default 1 (sd_interval_minutes scheduler_data);
                    reconnect_interval := default 5 (sd_reconnect_interval scheduler_data);
                    max_reconnect_attempts :=
                      default 10 (sd_max_reconnect_attempts scheduler_data) |} |}
  end.

(** The check of one identifier in [validate]:
    [not identifier or len(identifier) < 2] *)
Definition bad_identifier (identifier : option string) : bool :=
  negb (truthy identifier)
  || match identifier with
     | Some s => (String.length s <? 2)%nat
     | None => true
     end.

(** [ConfigLoader.validate] *)
Definition validate (config : CollectorConfig) : bool :=
  match channels config with
  | [] => false
  | _ =>
      let enabled_channels := get_enabled_channels config in
      match enabled_channels with
      | [] => false
      | _ =>
          if existsb (fun ch => bad_identifier (get_identifier ch)) enabled_channels
          then false
          else if interval_minutes (scheduler config) <? 1 then false
          else if reconnect_interval (scheduler config) <? 1 then false
          else if max_reconnect_attempts (scheduler config) <? 1 then false
          else true
      end
  end.

(** [load_config] *)
Definition load_config (file : option (option yaml_data)) : result CollectorConfig :=
  do config <- load file;
  if negb (validate config) then Raise ValueError else Ret config.

End ConfigLoader.

(** ** twitch_client.py *)

Module TwitchClient.
Import PyStr TokenManager.

(** The JSON objects answered by the streams endpoint and by the token
    endpoint; a key that is missing is [None]. *)
Record streams_body (stream_json : Type) : Type := {
  data : option (list stream_json)
}.
Arguments data {stream_json} _.

Record app_token_body : Type := {
  app_access_token : option string
}.

(** Requests sent, in order: a GET of the streams with the bearer token
    and the [user_id] parameter, or a POST for an app access token. *)
Inductive request : Type :=
  | GetStreams (bearer : string) (user_id : option string)
  | PostToken.

Global Instance request_eq_dec : EqDecision request.
Proof. solve_decision. Defined.

(** What the [try] body of [get_streams] ends with when it does not
    return: the [HTTPError] of [raise_for_status], with the status, or
    another exception. *)
Inductive failure : Type :=
  | HTTPError (status_code : Z)
  | Failure (e : exn).

(** [response.raise_for_status()] raises for the codes 400 to 599 *)
Definition is_error_status (status_code : Z) : bool :=
  (400 <=? status_code) && (status_code <? 600).

Section Client.
Context {stream_json stream : Type}.
(** [_parse_streams], which renames the keys of each stream *)
Variable _parse_streams : list stream_json -> list stream.

(** The two endpoints; an answer may depend on the requests sent so far. *)
Record endpoints : Type := {
  http_get_streams :
    list request -> string -> option string -> http_outcome (streams_body stream_json);
  http_post_token : list request -> http_outcome app_token_body
}.

(** [requests.get], [raise_for_status], [response.json()] and
    [data.get('data', [])] *)
Definition fetch (o : http_outcome (streams_body stream_json))
  : failure + list stream_json :=
  match o with
  | RequestFailed => inl (Failure RequestException)
  | CallFailed e => inl (Failure e)
  | Response status_code json =>
      if is_error_status status_code then inl (HTTPError status_code)
      else match json with
           | None => inl (Failure ValueError)
           | Some body => inr (default [] (data body))
           end
  end.

(** [_get_app_access_token] once the response is there *)
Definition _get_app_access_token (o : http_outcome app_token_body) : result string :=
  match o with
  | RequestFailed => Raise RequestException
  | CallFailed e => Raise e
  | Response status_code json =>
      if is_error_status status_code then Raise RequestException
      else match json with
           | None => Raise ValueError
           | Some body =>
               match app_access_token body with
               | Some (String c s) => Ret (String c s)
               | _ => Raise ValueError
               end
           end
  end.

(** The [user_id] entry of [params]: set only for a true value *)
Definition user_id_param (user_id : option string) : option string :=
  match user_id with
  | Some (String c s) => Some (String c s)
  | _ => None
  end.

(** [get_streams(user_id=...)]: the result, the access token of the
    client afterwards and the requests sent, given the token before and
    the requests [h] sent before. *)
Definition get_streams (w : endpoints) (h : list request) (access_token : string)
  (user_id : option string)
  : result (list stream) * string * list request :=
  let param := user_id_param user_id in
  let h1 := h ++ [GetStreams access_token param] in
  match fetch (http_get_streams w h access_token param) with
  | inr streams => (Ret (_parse_streams streams), access_token, h1)
  | inl (HTTPError status_code) =>
      if status_code =? 401 then
        let h2 := h1 ++ [PostToken] in
        match _get_app_access_token (http_post_token w h1) with
        | Raise e => (Raise e, access_token, h2)
        | Ret new_token =>
            let h3 := h2 ++ [GetStreams new_token param] in
            match fetch (http_get_streams w h2 new_token param) with
            | inr streams => (Ret (_parse_streams streams), new_token, h3)
            | inl (HTTPError _) => (Raise RequestException, new_token, h3)
            | inl (Failure e) => (Raise e, new_token, h3)
            end
        end
      else (Raise RequestException, access_token, h1)
  | inl (Failure e) => (Raise e, access_token, h1)
  end.

End Client.

End TwitchClient.

(** ** database.py: queries and the bulk save *)

Module DatabaseQueries.
Import Database.


(** [get_message_count_by_stream] *)
Definition get_message_count_by_stream (table : list chat_message) (stream_id : string)
  : nat :=
  count_key cm_stream_id stream_id table.

(** [ChatMessage.id.in_(message_ids)]: a [NULL] never compares equal *)
Definition id_in (message_ids : list (option string)) (r : chat_message) : bool :=
  match cm_id r with
  | Some v => bool_decide (Some v ∈ message_ids)
  | None => false
  end.

(** [bulk_save_chat_messages]: the number returned and the table
    afterwards.  The rows are inserted in one transaction, so a row
    that violates a constraint, or two new rows with the same id, make
    the commit raise and nothing is stored. *)
Definition bulk_save_chat_messages (table : list chat_message)
  (messages_data : list chat_message) : result nat * list chat_message :=
  match messages_data with
  | [] => (Ret 0%nat, table)
  | _ =>
      let message_ids := cm_id <$> messages_data in
      let existing_ids := cm_id <$> filter (fun r => id_in message_ids r = true) table in
      let new_messages :=
        filter (fun m => cm_id m ∉ existing_ids) messages_data in
      match new_messages with
      | [] => (Ret 0%nat, table)
      | _ =>
          if forallb chat_message_not_null new_messages
             && bool_decide (NoDup (cm_id <$> new_messages))
          then (Ret (length new_messages), table ++ new_messages)
          else (Raise IntegrityError, table)
      end
  end.

End DatabaseQueries.

(** ** twitch_irc.py: the login handshake *)

Module TwitchIRCAuth.
Import PyStr TwitchIRC.

(** The [TokenManager] handed to the client, seen from [_authenticate]:
    what the pre-check (reading the configured tokens and calling
    [get_valid_access_token]) ends with, and what the refresh (reading
    the configured refresh token and calling [refresh_access_token])
    ends with when it is attempted. *)
Record token_manager : Type := {
  precheck : result string;
  refresh : result (string * string)
}.

(** How [_authenticate] ends: it returns, it raises the [ConnectionError]
    that asks for a new connection with the refreshed token, it raises
    the [ValueError] of a failed login, or another exception gets out. *)
Inductive auth_outcome : Type :=
  | Authenticated
  | ReconnectRequired
  | LoginFailed
  | AuthRaised (e : exn).

(** ['001' in response or 'Welcome' in response] *)
Definition is_welcome (response : string) : bool :=
  contains "001" response || contains "Welcome" response.

(** ['NOTICE' in response and 'Login authentication failed' in response] *)
Definition is_login_failure (response : string) : bool :=
  contains "NOTICE" response && contains "Login authentication failed" response.

(** The [while True] loop over the responses.  [incoming] holds the
    frames the server sends; once they are used up, [recv] raises
    [closing] (the timeout of [wait_for], or the closed connection).
    The result is the outcome and the access token of the client. *)
Fixpoint await_welcome (tm : option token_manager) (access_token : string)
  (incoming : list string) (closing : exn) : auth_outcome * string :=
  match incoming with
  | [] => (AuthRaised closing, access_token)
  | response :: rest =>
      if is_welcome response then (Authenticated, access_token)
      else if is_login_failure response then
        match tm with
        | Some m =>
            match refresh m with
            | Ret (new_access_token, _) => (ReconnectRequired, new_access_token)
            | Raise ValueError => (LoginFailed, access_token)
            | Raise e => (AuthRaised e, access_token)
            end
        | None => (LoginFailed, access_token)
        end
      else await_welcome tm access_token rest closing
  end.

(** The token used for the login: the result of the pre-check when there
    is a token manager and the pre-check returns, else the token the
    client was built with. *)
Definition login_token (tm : option token_manager) (access_token : string) : string :=
  match tm with
  | Some m =>
      match precheck m with
      | Ret token => token
      | Raise _ => access_token
      end
  | None => access_token
  end.

(** [_authenticate]: the outcome, the access token of the client and the
    connection afterwards. *)
Definition _authenticate (tm : option token_manager) (access_token : string)
  (c : client) (incoming : list string) (closing : exn)
  : auth_outcome * string * client :=
  let access_token := login_token tm access_token in
  let sending :=
    do c1 <- send c "CAP REQ :twitch.tv/tags twitch.tv/commands";
    do c2 <- send c1 ("PASS oauth:" +:+ access_token);
    send c2 "NICK justinfan12345" in
  match sending with
  | Raise e => (AuthRaised e, access_token, c)
  | Ret c3 =>
      let '(outcome, token) := await_welcome tm access_token incoming closing in
      (outcome, token, c3)
  end.

End TwitchIRCAuth.

(** ** collector.py: joining the configured channels *)

Module CollectorJoin.
Import Database Collector.

Section Join.
Variable get_streams : option string -> result (list stream_info).

(** The body of the loop of [_join_all_channels] for one channel: the
    collector afterwards and whether the channel's login is appended to
    the list to join.  An exception of the poll or of the save is logged
    and the channel is left out. *)
Definition join_one (c : collector) (user_id : string) : collector * bool :=
  let c := with_poll c (Some user_id) in
  match get_streams (Some user_id) with
  | Raise _ => (c, false)
  | Ret (stream_info :: _) =>
      match save_stream (streams (db c)) stream_info with
      | (Raise _, _) => (c, false)
      | (Ret _, t) =>
          (set_stream_id (with_streams c t) (Some user_id) (si_stream_id stream_info),
           true)
      end
  | Ret [] => (set_stream_id c (Some user_id) None, true)
  end.

(** [_join_all_channels] up to the call of [join_channels]: the
    collector afterwards and the logins handed to [join_channels].
    [channel_map] lists the entries of the dictionary in its order, each
    with its user id and login. *)
Fixpoint _join_all_channels (c : collector) (channel_map : list (string * string))
  : collector * list string :=
  match channel_map with
  | [] => (c, [])
  | (user_id, user_login) :: rest =>
      let '(c1, joined) := join_one c user_id in
      let '(c2, channel_logins) := _join_all_channels c1 rest in
      (c2, if joined then user_login :: channel_logins else channel_logins)
  end.

(** Whether the poll of a channel and the save of its stream go through *)
Definition status_known (user_id : string) : bool :=
  match get_streams (Some user_id) with
  | Ret [] => true
  | Ret (stream_info :: _) => stream_not_null stream_info
  | Raise _ => false
  end.

End Join.

End CollectorJoin.

(** ** collector.py: connecting with retries *)

Module CollectorConnect.

(** How [irc_client.connect()] ends, as the loop of
    [collect_from_channels] tells the cases apart: it returns; it raises
    a [ConnectionError] whose text asks for a reconnect (the one
    [_authenticate] raises after a token refresh); it raises another
    [ConnectionError]; or it raises an exception of another class. *)
Inductive connect_outcome : Type :=
  | Connected
  | ReconnectAsked
  | ConnectionErrorRaised
  | ExceptionRaised (e : exn).

(** How the loop ends: by [break], the client holding [access_token]; by
    an exception of [connect] raised again; by an exception of
    [get_valid_access_token]; or by running out of attempts without
    either. *)
Inductive loop_outcome : Type :=
  | Broke (access_token : string)
  | Raised (o : connect_outcome)
  | TokenRaised (e : exn)
  | Exhausted (access_token : string).

Section Loop.
(** [connect attempt token]: the outcome of the connection attempt made
    with a client holding [token]; [get_valid_access_token attempt]: the
    outcome of reading the configured tokens and asking the token
    manager during that attempt. *)
Variable connect : nat -> string -> connect_outcome.
Variable get_valid_access_token : nat -> result string.

(** The [for attempt in range(max_retries)] loop from [attempt] on, with
    [remaining = max_retries - attempt]: the outcome and the tokens of
    the clients that tried to connect, in order. *)
Fixpoint attempts (remaining attempt : nat) (access_token : string)
  : loop_outcome * list string :=
  match remaining with
  | O => (Exhausted access_token, [])
  | S remaining' =>
      let may_retry := negb (bool_decide (remaining' = O)) in
      match connect attempt access_token with
      | Connected => (Broke access_token, [access_token])
      | ReconnectAsked =>
          if may_retry then
            match get_valid_access_token attempt with
            | Ret new_token =>
                let '(o, tokens) := attempts remaining' (S attempt) new_token in
                (o, access_token :: tokens)
            | Raise e => (TokenRaised e, [access_token])
            end
          else (Raised ReconnectAsked, [access_token])
      | ConnectionErrorRaised => (Raised ConnectionErrorRaised, [access_token])
      | ExceptionRaised e =>
          if may_retry then
            let '(o, tokens) := attempts remaining' (S attempt) access_token in
            (o, access_token :: tokens)
          else (Raised (ExceptionRaised e), [access_token])
      end
  end.

(** The loop of [collect_from_channels], [max_retries = 3] *)
Definition connect_with_retries (access_token : string)
  : loop_outcome * list string :=
  attempts 3 0 access_token.

End Loop.

End CollectorConnect.

(** Sample inputs of the later sections *)

Definition sample_yaml : ConfigLoader.yaml_data :=
  {| ConfigLoader.yd_channels :=
       Some [ {| ConfigLoader.cd_user_login := Some "dallas";
                 ConfigLoader.cd_user_id := None;
                 ConfigLoader.cd_display_name := None;
                 ConfigLoader.cd_enabled := None;
                 ConfigLoader.cd_notes := None |};
              {| ConfigLoader.cd_user_login := None;
                 ConfigLoader.cd_user_id := None;
                 ConfigLoader.cd_display_name := Some "nobody";
                 ConfigLoader.cd_enabled := Some true;
                 ConfigLoader.cd_notes := None |} ];
     ConfigLoader.yd_scheduler := None;
     ConfigLoader.yd_other_keys := false |}.

Definition sample_second_message : Database.chat_message :=
  {| Database.cm_id := Some "msg-2";
     Database.cm_stream_id := Some "stream-1";
     Database.cm_broadcaster_user_id := Some "1234";
     Database.cm_chatter_user_id := Some "5678";
     Database.cm_other := [] |}.

Definition sample_token_manager : TwitchIRCAuth.token_manager :=
  {| TwitchIRCAuth.precheck := Ret "access-1";
     TwitchIRCAuth.refresh := Ret ("access-2", "refresh-2") |}.

Definition sample_config : ConfigLoader.CollectorConfig :=
  {| ConfigLoader.channels :=
       [ {| ConfigLoader.user_login := Some "dallas";
            ConfigLoader.user_id := None;
            ConfigLoader.display_name := None;
            ConfigLoader.enabled := true;
            ConfigLoader.notes := None |} ];
     ConfigLoader.scheduler :=
       {| ConfigLoader.interval_minutes := 1;
          ConfigLoader.reconnect_interval := 5;
          ConfigLoader.max_reconnect_attempts := 10 |} |}.

Definition refusing_connect (attempt : nat) (token : string)
  : CollectorConnect.connect_outcome :=
  CollectorConnect.ConnectionErrorRaised.

(** * Properties *)

(** ** The string primitives on sample inputs *)

Example replace_ex1 :
  PyStr.replace "PING" "PONG" "PING :tmi.twitch.tv" = "PONG :tmi.twitch.tv".
Proof. reflexivity. Qed.

Example replace_ex2 : PyStr.replace "aa" "b" "aaa" = "ba".
Proof. reflexivity. Qed.

Example split_ex1 : PyStr.split ";" "a=1;b;;c=" = ["a=1"; "b"; ""; "c="].
Proof. reflexivity. Qed.

Example int_ex1 : PyStr.py_int " +1_000 " = Some 1000.
Proof. reflexivity. Qed.

Example int_ex2 : PyStr.py_int "1__0" = None.
Proof. reflexivity. Qed.

Example int_ex3 : PyStr.py_int "-007" = Some (-7).
Proof. reflexivity. Qed.

Example lower_ex1 : PyStr.lower "#FooBar_9" = "#foobar_9".
Proof. reflexivity. Qed.

Example strip_ex1 : PyStr.strip "  ab c  " = "ab c".
Proof. reflexivity. Qed.

Example tags_ex1 :
  TwitchIRC._parse_tags
    "@ban-duration=600;room-id=12;x;msg=a\sb\:c :tmi.twitch.tv CLEARCHAT #dallas :ronni"
  = <["msg" := "a b;c"]> (<["room-id" := "12"]> (<["ban-duration" := "600"]> ∅)).
Proof. vm_compute. reflexivity. Qed.

Example search_ex1 :
  TwitchIRC.clearchat_search "@room-id=12 :tmi.twitch.tv CLEARCHAT #dallas :ronni"
  = Some ("dallas", Some "ronni").
Proof. reflexivity. Qed.

Example search_ex2 :
  TwitchIRC.clearchat_search "@room-id=12 :tmi.twitch.tv CLEARCHAT #dallas"
  = Some ("dallas", None).
Proof. reflexivity. Qed.

(** ** Lemmas on the string primitives *)

Section StringLemmas.
Import PyStr.

Lemma append_cons (c : ascii) (s t : string) :
  String c s +:+ t = String c (s +:+ t).
Proof. reflexivity. Qed.

Lemma append_empty_l (t : string) : "" +:+ t = t.
Proof. reflexivity. Qed.

Lemma startswith_contains (sub s : string) :
  startswith sub s = true -> contains sub s = true.
Proof. intros H. destruct s; simpl; rewrite H; reflexivity. Qed.

Lemma contains_cons_false (sub : string) (c : ascii) (s : string) :
  contains sub (String c s) = false ->
  startswith sub (String c s) = false /\ contains sub s = false.
Proof.
  cbn [contains]. intros H. apply orb_false_iff in H. exact H.
Qed.

(** A text in which [old] does not occur is left as it is by [replace]. *)
Lemma replace_absent (old new s : string) :
  contains old s = false -> replace old new s = s.
Proof.
  unfold replace. induction s as [|c s IH]; intros H; [reflexivity|].
  apply contains_cons_false in H as [H1 H2].
  cbn [replace_from]. rewrite H1, (IH H2). reflexivity.
Qed.

(** A character that starts [sub] and is missing from [s] keeps [sub] out
    of [s]. *)
Lemma contains_first_char (c : ascii) (sub s : string) :
  contains (String c "") s = false -> contains (String c sub) s = false.
Proof.
  induction s as [|d s IH]; intros H.
  - reflexivity.
  - apply contains_cons_false in H as [H1 H2].
    cbn [contains startswith] in *.
    rewrite andb_true_r in H1. rewrite H1, (IH H2). reflexivity.
Qed.


Lemma startswith_split (p s : string) :
  startswith p s = true -> s = p +:+ drop (String.length p) s.
Proof.
  revert s. induction p as [|a p IH]; intros s H; [reflexivity|].
  destruct s as [|b s]; [discriminate|].
  cbn [startswith] in H. apply andb_true_iff in H as [Hab Hp].
  apply Ascii.eqb_eq in Hab. subst b.
  cbn [String.length drop]. rewrite append_cons, <- (IH s Hp). reflexivity.
Qed.

End StringLemmas.

(** ** Properties of the protocol client (twitch_irc.py) *)

Section JoinProperties.
Import PyStr TwitchIRC.

(** *** Joining channels *)

(** The normalized name does not depend on the letter case of the
    spelling nor on a leading [#]. *)
Lemma lower_char_idempotent (c : ascii) : lower_char (lower_char c) = lower_char c.
Proof. destruct c as [[] [] [] [] [] [] [] []]; reflexivity. Qed.

Lemma lower_idempotent (s : string) : lower (lower s) = lower s.
Proof.
  induction s as [|c s IH]; [reflexivity|].
  cbn [lower]. rewrite lower_char_idempotent, IH. reflexivity.
Qed.

Lemma startswith_hash_lower (s : string) :
  startswith "#" (lower s) = startswith "#" s.
Proof.
  destruct s as [|c s]; [reflexivity|].
  cbn [lower startswith]. f_equal.
  destruct c as [[] [] [] [] [] [] [] []]; reflexivity.
Qed.

Lemma normalize_channel_lower (channel : string) :
  normalize_channel (lower channel) = normalize_channel channel.
Proof.
  unfold normalize_channel. rewrite startswith_hash_lower.
  destruct (startswith "#" channel).
  - apply lower_idempotent.
  - rewrite !append_cons, !append_empty_l. cbn [lower].
    rewrite lower_idempotent. reflexivity.
Qed.

Lemma normalize_channel_hash (channel : string) :
  startswith "#" channel = false ->
  normalize_channel ("#" +:+ channel) = normalize_channel channel.
Proof.
  intros H. unfold normalize_channel. rewrite H. reflexivity.
Qed.


(** C9: a channel whose normalized name is already in the joined set is
    not joined again: the call returns with the client unchanged, so
    nothing is sent and the set is the same.  Hence, on an open
    connection, joining a channel and then joining it again under any
    spelling with the same normalized name sends one JOIN line in all. *)
Theorem join_channel_idempotent (c : client) (channel again : string) :
  normalize_channel again = normalize_channel channel ->
  (normalize_channel channel ∈ joined_channels c -> join_channel c again = Ret c)
  /\ (websocket_open c = true ->
      normalize_channel channel ∉ joined_channels c ->
      exists c1,
        join_channel c channel = Ret c1
        /\ sent c1 = sent c ++ ["JOIN " +:+ normalize_channel channel]
        /\ joined_channels c1 = {[normalize_channel channel]} ∪ joined_channels c
        /\ join_channel c1 again = Ret c1
        /\ join_channels c [channel; again] = Ret c1).
Proof.
  intros Hsame. split.
  - intros Hin. unfold join_channel. rewrite Hsame.
    rewrite decide_True by exact Hin. reflexivity.
  - intros Hopen Hnotin.
    assert (H1 : join_channel c channel
                 = Ret {| websocket_open := true;
                          sent := sent c ++ ["JOIN " +:+ normalize_channel channel];
                          joined_channels :=
                            {[normalize_channel channel]} ∪ joined_channels c;
                          on_ban := on_ban c |}).
    { unfold join_channel. rewrite decide_False by exact Hnotin.
      unfold send. rewrite Hopen. reflexivity. }
    eexists. split; [exact H1|].
    assert (H2 : forall c1 : client,
               normalize_channel channel ∈ joined_channels c1 ->
               join_channel c1 again = Ret c1).
    { intros c1 Hin. unfold join_channel. rewrite Hsame.
      rewrite decide_True by exact Hin. reflexivity. }
    repeat split.
    + apply H2. cbn. set_solver.
    + cbn [join_channels]. rewrite H1. cbn [bind]. rewrite H2 by (cbn; set_solver).
      reflexivity.
Qed.

End JoinProperties.


Section ClientProperties.
Import PyStr TwitchIRC Reference.

Context {datetime : Type}.
Variable utcnow : nat -> datetime.
Variable from_millis : Z -> result datetime.
Context {message_event delete_event : Type}.
Variable handle_privmsg : string -> result (list message_event).
Variable handle_clearmsg : string -> result (list delete_event).

Local Abbreviation handle_message :=
  (_handle_message utcnow from_millis handle_privmsg handle_clearmsg).
Local Abbreviation handle_clearchat := (_handle_clearchat utcnow from_millis).

(** *** Keepalive *)

(** X8: When the text after [PING] does not contain [PING] again, the reply
    is [PONG] followed by that same text. *)
Lemma pong_same_payload (c : client) (payload : string) :
  websocket_open c = true ->
  contains "PING" payload = false ->
  handle_message c ("PING" +:+ payload)
  = ({| websocket_open := true;
        sent := sent c ++ ["PONG" +:+ payload];
        joined_channels := joined_channels c;
        on_ban := on_ban c |}, []).
Proof.
  intros Hopen Habsent.
  unfold _handle_message.
  change (startswith "PING" ("PING" +:+ payload)) with true. cbn match.
  assert (Hr : replace "PING" "PONG" ("PING" +:+ payload) = "PONG" +:+ payload).
  { unfold replace.
    change ("PING" +:+ payload)
      with (String "P" (String "I" (String "N" (String "G" payload)))).
    cbn [replace_from startswith Ascii.eqb Bool.eqb andb String.length Nat.pred].
    fold (replace "PING" "PONG" payload).
    rewrite (replace_absent _ _ _ Habsent). reflexivity. }
  rewrite Hr. unfold send. rewrite Hopen. reflexivity.
Qed.

(** C7, at a PING line whose payload contains the letters PING: every
    occurrence is rewritten, so the reply carries [KEEPALIVE-PONG] where
    the server sent [KEEPALIVE-PING]. *)
Theorem pong_payload_differs :
  let c := {| websocket_open := true; sent := [];
              joined_channels := ∅; on_ban := true |} in
  let reply :=
    sent (fst (_handle_message utcnow from_millis handle_privmsg handle_clearmsg
                 c "PING :KEEPALIVE-PING")) in
  reply = ["PONG :KEEPALIVE-PONG"] /\ reply <> ["PONG :KEEPALIVE-PING"].
Proof.
  split; [reflexivity | discriminate].
Qed.

(** *** Tag decoding *)

(** A value without backslash is decoded to itself. *)
Lemma unescape_plain (value : string) :
  contains "\" value = false -> unescape value = value.
Proof.
  intros H. unfold unescape.
  rewrite (replace_absent "\s" " " value) by (apply contains_first_char; exact H).
  rewrite (replace_absent "\:" ";" value) by (apply contains_first_char; exact H).
  apply replace_absent, contains_first_char. exact H.
Qed.

(** The rules on a character that is not a backslash, and on a
    backslash that starts no escape sequence. *)
Lemma rules_cons_other (c : ascii) (s : string) :
  c <> "\"%char ->
  unescape_by_the_rules (String c s) = String c (unescape_by_the_rules s).
Proof.
  intros Hc. destruct s as [|d s].
  - destruct c as [[] [] [] [] [] [] [] []]; reflexivity.
  - change (unescape_by_the_rules (String c (String d s)))
      with (match c with
            | "\"%char =>
                match d with
                | "s"%char => String " " (unescape_by_the_rules s)
                | ":"%char => String ";" (unescape_by_the_rules s)
                | "\"%char => String "\" (unescape_by_the_rules s)
                | _ => String c (unescape_by_the_rules (String d s))
                end
            | _ => String c (unescape_by_the_rules (String d s))
            end).
    destruct c as [[] [] [] [] [] [] [] []]; try reflexivity. congruence.
Qed.

Lemma rules_backslash_other (d : ascii) (s : string) :
  d <> "s"%char -> d <> ":"%char -> d <> "\"%char ->
  unescape_by_the_rules (String "\" (String d s))
  = String "\" (String d (unescape_by_the_rules s)).
Proof.
  intros Hs Hc Hb.
  rewrite <- (rules_cons_other d s Hb).
  change (unescape_by_the_rules (String "\" (String d s)))
    with (match d with
          | "s"%char => String " " (unescape_by_the_rules s)
          | ":"%char => String ";" (unescape_by_the_rules s)
          | "\"%char => String "\" (unescape_by_the_rules s)
          | _ => String "\" (unescape_by_the_rules (String d s))
          end).
  destruct d as [[] [] [] [] [] [] [] []]; try reflexivity; congruence.
Qed.

Lemma replace_miss (old new : string) (c : ascii) (s : string) :
  startswith old (String c s) = false ->
  replace old new (String c s) = String c (replace old new s).
Proof. intros H. unfold replace. cbn [replace_from]. rewrite H. reflexivity. Qed.

Lemma replace_hit2 (a b : ascii) (new s : string) :
  replace (String a (String b "")) new (String a (String b s))
  = new +:+ replace (String a (String b "")) new s.
Proof.
  unfold replace. cbn [replace_from startswith String.length Nat.pred].
  rewrite !Ascii.eqb_refl. reflexivity.
Qed.

Lemma startswith2 (a b c : ascii) (s : string) :
  startswith (String a (String b "")) (String c s)
  = Ascii.eqb a c && match s with
                     | String d _ => Ascii.eqb b d
                     | EmptyString => false
                     end.
Proof.
  cbn [startswith]. destruct s as [|d s]; [reflexivity|].
  cbn [startswith]. rewrite andb_true_r. reflexivity.
Qed.

(** On a value without two backslashes in a row, the first two
    replacements give what the rules give, and leave no two backslashes
    in a row for the third. *)
Lemma replace_twice_rules (n : nat) (value : string) :
  (String.length value <= n)%nat ->
  contains "\\" value = false ->
  replace "\:" ";" (replace "\s" " " value) = unescape_by_the_rules value
  /\ contains "\\" (unescape_by_the_rules value) = false.
Proof.
  revert value. induction n as [|n IH]; intros value Hlen Hno.
  - destruct value; [split; reflexivity | cbn in Hlen; lia].
  - destruct value as [|c v]; [split; reflexivity|].
    cbn [String.length] in Hlen.
    apply contains_cons_false in Hno as [Hhere Hrest].
    rewrite startswith2 in Hhere.
    destruct (IH v ltac:(lia) Hrest) as [IHeq IHno].
    destruct (Ascii.eqb_spec "\" c) as [<-|Hc].
    + (* a backslash *)
      destruct v as [|d v]; [split; reflexivity|].
      cbn [andb] in Hhere.
      cbn [String.length] in Hlen.
      apply contains_cons_false in Hrest as [_ Hrest'].
      destruct (IH v ltac:(lia) Hrest') as [IHeq' IHno'].
      destruct (Ascii.eqb_spec "s" d) as [<-|Hs].
      { rewrite replace_hit2, append_cons, append_empty_l.
        rewrite replace_miss by reflexivity. rewrite IHeq'.
        split; [reflexivity|].
        change (unescape_by_the_rules (String "\" (String "s" v)))
          with (String " " (unescape_by_the_rules v)).
        cbn [contains]. rewrite IHno'. reflexivity. }
      destruct (Ascii.eqb_spec ":" d) as [<-|Hcolon].
      { rewrite replace_miss by reflexivity.
        rewrite (replace_miss "\s" " " ":") by reflexivity.
        rewrite replace_hit2, append_cons, append_empty_l. rewrite IHeq'.
        split; [reflexivity|].
        change (unescape_by_the_rules (String "\" (String ":" v)))
          with (String ";" (unescape_by_the_rules v)).
        cbn [contains]. rewrite IHno'. reflexivity. }
      assert (Hb : d <> "\"%char).
      { intros ->. discriminate. }
      assert (Hds : Ascii.eqb "s" d = false) by (apply Ascii.eqb_neq; exact Hs).
      assert (Hdc : Ascii.eqb ":" d = false) by (apply Ascii.eqb_neq; exact Hcolon).
      assert (Hdb : Ascii.eqb "\" d = false)
        by (apply Ascii.eqb_neq; intros E; apply Hb; symmetry; exact E).
      rewrite (replace_miss "\s" " " "\")
        by (rewrite startswith2, Hds; reflexivity).
      rewrite (replace_miss "\s" " " d)
        by (rewrite startswith2, Hdb; reflexivity).
      rewrite (replace_miss "\:" ";" "\")
        by (rewrite startswith2, Hdc; reflexivity).
      rewrite (replace_miss "\:" ";" d)
        by (rewrite startswith2, Hdb; reflexivity).
      rewrite IHeq', rules_backslash_other by auto.
      split; [reflexivity|].
      cbn [contains]. rewrite !startswith2, Hdb, IHno'.
      cbn [andb orb]. reflexivity.
    + (* another character *)
      assert (Hcb : Ascii.eqb "\" c = false) by (apply Ascii.eqb_neq; exact Hc).
      rewrite (replace_miss "\s" " " c) by (rewrite startswith2, Hcb; reflexivity).
      rewrite (replace_miss "\:" ";" c) by (rewrite startswith2, Hcb; reflexivity).
      rewrite IHeq, rules_cons_other by (intros E; apply Hc; symmetry; exact E).
      split; [reflexivity|].
      cbn [contains]. rewrite startswith2, Hcb, IHno. reflexivity.
Qed.

(** X9: The decoding follows the escape rules on every value that has no two
    backslashes in a row, hence on every value without backslash. *)
Lemma unescape_follows_rules (value : string) :
  contains "\\" value = false ->
  unescape value = unescape_by_the_rules value.
Proof.
  intros Hno. unfold unescape.
  destruct (replace_twice_rules (String.length value) value (Nat.le_refl _) Hno)
    as [Heq Hclean].
  rewrite Heq. apply replace_absent. exact Hclean.
Qed.

(** Every entry of the mapping comes from a [key=value] item of the tag
    string, so a key that is not in the line is not in the mapping. *)
Lemma parse_tag_fold_lookup (items : list string) (tags : gmap string string)
  (key value : string) :
  foldl parse_tag tags items !! key = Some value ->
  tags !! key = Some value \/
  exists item raw, item ∈ items /\ split_once "=" item = Some (key, raw)
                   /\ value = unescape raw.
Proof.
  revert tags. induction items as [|item items IH]; intros tags H.
  - left. exact H.
  - cbn [foldl] in H. apply IH in H as [H | (it & raw & Hin & Hs & Hv)].
    + unfold parse_tag in H.
      destruct (split_once "=" item) as [[k v]|] eqn:Hs.
      * destruct (decide (k = key)) as [->|Hne].
        -- rewrite lookup_insert_eq in H. injection H as <-.
           right. exists item, v. split; [left | split; [exact Hs | reflexivity]].
        -- rewrite lookup_insert_ne in H by exact Hne. left. exact H.
      * left. exact H.
    + right. exists it, raw. split; [right; exact Hin | auto].
Qed.

(** X10: Every tag of the mapping comes from the line: a key is present only
    if the tag string of the line has an item [key=raw], and its value
    is the decoding of such a [raw]; a line without tag string gives
    the empty mapping. *)
Lemma parse_tags_lookup (message key value : string) :
  _parse_tags message !! key = Some value ->
  exists tag_string item raw,
    tag_pattern_match message = Some tag_string
    /\ item ∈ split ";" tag_string
    /\ split_once "=" item = Some (key, raw)
    /\ value = unescape raw.
Proof.
  unfold _parse_tags. destruct (tag_pattern_match message) as [ts|]; intros H.
  - apply parse_tag_fold_lookup in H as [H | (it & raw & Hin & Hs & Hv)].
    + rewrite lookup_empty in H. discriminate.
    + exists ts, it, raw. auto.
  - rewrite lookup_empty in H. discriminate.
Qed.

(** C3, at a value that holds an escaped backslash followed by the letter
    s: the first replacement takes the second backslash and the s for the
    escape of a space, so the decoded value is a backslash and a space,
    where the rules give a backslash and an s. *)
Theorem parse_tags_escaped_backslash :
  _parse_tags "@key=C:\\system :tmi.twitch.tv CLEARCHAT #dallas" !! "key"
    = Some "C:\ ystem"
  /\ unescape_by_the_rules "C:\\system" = "C:\system"
  /\ unescape "C:\\system" <> unescape_by_the_rules "C:\\system".
Proof.
  split; [vm_compute; reflexivity | split; [reflexivity | discriminate]].
Qed.

(** *** Moderation clears *)






Lemma clearchat_at_not_here (s : string) :
  startswith "CLEARCHAT #" s = false -> clearchat_at s = None.
Proof. intros H. unfold clearchat_at. rewrite H. reflexivity. Qed.



End ClientProperties.

(** *** Instances on concrete lines *)

Lemma pong_payload_differs_witness :
  TwitchIRC.sent
    (fst (TwitchIRC._handle_message sample_utcnow sample_from_millis
            sample_handler sample_handler sample_client "PING :KEEPALIVE-PING"))
  = ["PONG :KEEPALIVE-PONG"].
Proof.
  exact (proj1 (pong_payload_differs sample_utcnow sample_from_millis
                  sample_handler sample_handler)).
Defined.

Lemma join_channel_idempotent_witness :
  exists c1,
    TwitchIRC.join_channel sample_client "Dallas" = Ret c1
    /\ TwitchIRC.sent c1 = ["JOIN #dallas"]
    /\ TwitchIRC.join_channel c1 "#DALLAS" = Ret c1.
Proof.
  destruct (join_channel_idempotent sample_client "Dallas" "#DALLAS" eq_refl)
    as [_ H].
  destruct (H eq_refl (not_elem_of_empty _)) as (c1 & H1 & H2 & _ & H4 & _).
  exists c1. split; [exact H1 | split; [exact H2 | exact H4]].
Defined.




(** ** Properties of the token manager (token_manager.py) *)

Section TokenProperties.
Import TokenManager.

(** *** Validation *)

(** [validate_token] never raises: both [except] clauses return [None]. *)
Lemma validate_token_returns (w : world) (h : list call) (access : string) :
  exists v, fst (validate_token w h access) = Ret v.
Proof.
  unfold validate_token. destruct access as [|c s]; cbn [fst].
  - eauto.
  - destruct (validate_response _) as [v|[]]; cbn [validate_except]; eauto.
Qed.

Lemma validate_response_some (o : http_outcome validation_data) (v : validation_data) :
  validate_except (validate_response o) = Ret (Some v) ->
  o = Response 200 (Some v).
Proof.
  destruct o as [status [body|]| |e]; cbn [validate_response].
  - destruct (status =? 200) eqn:Hs.
    + apply Z.eqb_eq in Hs. subst status.
      destruct (bool_decide _); [|discriminate].
      destruct (login body), (expires_in body); cbn; try discriminate.
      intros H. injection H as ->. reflexivity.
    + destruct (status =? 401); discriminate.
  - destruct (status =? 200); [discriminate|].
    destruct (status =? 401); discriminate.
  - discriminate.
  - destruct e; discriminate.
Qed.

(** C5, as the code has it: the validation data is returned only for a
    200 answer, and is returned for every 200 answer whose body grants
    [chat:read] and carries [login] and [expires_in]; a 401 answer gives
    [None], and so do every other status code, a network error and any
    other failure of the call, which are not propagated. *)
Theorem validate_token_outcomes (w : world) (h : list call) (access : string) :
  (forall v, fst (validate_token w h access) = Ret (Some v) ->
             access <> "" /\ http_get_validate w h access = Response 200 (Some v))
  /\ (forall v, access <> "" ->
        http_get_validate w h access = Response 200 (Some v) ->
        "chat:read" ∈ default [] (scopes v) ->
        is_Some (login v) -> is_Some (expires_in v) ->
        fst (validate_token w h access) = Ret (Some v))
  /\ (forall status body, access <> "" ->
        http_get_validate w h access = Response status body ->
        status <> 200 ->
        fst (validate_token w h access) = Ret None)
  /\ (access <> "" ->
        http_get_validate w h access = RequestFailed
        \/ (exists e, http_get_validate w h access = CallFailed e) ->
        fst (validate_token w h access) = Ret None).
Proof.
  unfold validate_token. destruct access as [|c s]; cbn [fst].
  - repeat split; congruence.
  - split; [|split; [|split]].
    + intros v H. split; [discriminate|].
      apply validate_response_some. exact H.
    + intros v _ Hget Hscope [l Hl] [n Hn]. rewrite Hget.
      cbn [validate_response]. change (200 =? 200) with true. cbn match.
      rewrite bool_decide_eq_true_2 by exact Hscope. rewrite Hl, Hn. reflexivity.
    + intros status body _ Hget Hne. rewrite Hget. cbn [validate_response].
      destruct (status =? 200) eqn:Hs; [apply Z.eqb_eq in Hs; contradiction|].
      destruct (status =? 401); reflexivity.
    + intros _ [Hget | [e Hget]]; rewrite Hget; cbn [validate_response].
      * reflexivity.
      * destruct e; reflexivity.
Qed.

(** *** The valid-token path *)


(** *** Concurrent callers *)

Lemma refresh_calls_snoc (h : list call) (c : call) :
  refresh_calls (h ++ [c]) = (refresh_calls h + (if is_refresh c then 1 else 0))%nat.
Proof.
  unfold refresh_calls. rewrite filter_app, length_app.
  destruct c; reflexivity.
Qed.

Lemma posted_insert (ts : list task) (i : nat) (t t' : task) :
  ts !! i = Some t ->
  (sum_list (posted <$> <[i := t']> ts) + posted t
   = sum_list (posted <$> ts) + posted t')%nat.
Proof.
  revert i. induction ts as [|x ts IH]; intros i H.
  - discriminate.
  - destruct i as [|i].
    + injection H as ->. cbn. lia.
    + cbn in H. specialize (IH i H).
      change (<[S i:=t']> (x :: ts)) with (x :: <[i:=t']> ts).
      rewrite !fmap_cons. cbn [sum_list sum_list_with]. lia.
Qed.

(** The invariant of a run against an expired token: the number of
    refresh requests sent is the number of tasks that have sent theirs,
    and every other task is bound to send one. *)
Definition counted (st : sched_state) : Prop :=
  Forall bound_to_refresh (tasks st)
  /\ refresh_calls (history st) = sum_list (posted <$> tasks st).

(** Closes a goal on the count after task [i] moved to a new state. *)
Ltac count_insert Hi :=
  match goal with
  | |- context [<[?i := ?t']> (tasks ?st)] =>
      let Hins := fresh "Hins" in
      pose proof (posted_insert (tasks st) i _ t' Hi) as Hins;
      cbn [posted] in Hins; lia
  end.

Lemma enter_refresh_counted (w : world) (i : nat) (fallback : option string)
  (refresh : string) (st : sched_state) (t : task) :
  tasks st !! i = Some t -> posted t = 0%nat -> refresh <> "" ->
  counted st -> counted (enter_refresh w i fallback refresh st).
Proof.
  intros Hi Hp Hne [Hwf Hcount]. unfold enter_refresh.
  destruct refresh as [|c s]; [congruence|].
  destruct (negb (locked st) && bool_decide (waiters st = [])); split; cbn [tasks history].
  - apply Forall_insert; [exact Hwf | exact I].
  - rewrite refresh_calls_snoc. cbn [is_refresh].
    count_insert Hi.
  - apply Forall_insert; [exact Hwf | exact Hne].
  - count_insert Hi.
Qed.

Lemma step_counted (w : world) (i : nat) (st st' : sched_state) :
  access_expired w -> counted st -> step w i st = Some st' -> counted st'.
Proof.
  intros Hexp Hc. pose proof Hc as [Hwf Hcount]. unfold step.
  destruct (tasks st !! i) as [t|] eqn:Hi; [|discriminate].
  assert (Ht : bound_to_refresh t).
  { rewrite Forall_lookup in Hwf. exact (Hwf i t Hi). }
  destruct t as [access refresh|o access refresh|fb refresh|fb o|fb saved a r|res].
  - (* not started *)
    destruct access as [|c s]; intros H; injection H as <-.
    + eapply enter_refresh_counted; eauto.
    + split; cbn [tasks history].
      * apply Forall_insert; [exact Hwf|]. split; [exact Ht | apply Hexp].
      * rewrite refresh_calls_snoc. cbn [is_refresh].
        count_insert Hi.
  - (* the validation has answered *)
    destruct Ht as [Hne Hnone]. rewrite Hnone.
    intros H; injection H as <-. eapply enter_refresh_counted; eauto.
  - (* waiting for the lock *)
    destruct (locked st); [discriminate|].
    destruct (waiters st) as [|j rest]; [discriminate|].
    destruct (bool_decide (j = i)); [|discriminate].
    intros H; injection H as <-. split; cbn [tasks history].
    + apply Forall_insert; [exact Hwf | exact I].
    + rewrite refresh_calls_snoc. cbn [is_refresh].
      count_insert Hi.
  - (* the token endpoint has answered *)
    destruct (refresh_response o) as [[a r]|e]; intros H; injection H as <-;
      split; cbn [tasks history release].
    + apply Forall_insert; [exact Hwf | exact I].
    + rewrite refresh_calls_snoc. cbn [is_refresh].
      count_insert Hi.
    + apply Forall_insert; [exact Hwf | exact I].
    + count_insert Hi.
  - (* the tokens are saved *)
    intros H; injection H as <-. split; cbn [tasks history release].
    + apply Forall_insert; [exact Hwf | exact I].
    + count_insert Hi.
  - discriminate.
Qed.

Lemma run_counted (w : world) (schedule : list nat) (st : sched_state) :
  access_expired w -> counted st -> counted (run w schedule st).
Proof.
  intros Hexp. revert st. induction schedule as [|i rest IH]; intros st Hc.
  - exact Hc.
  - cbn [run]. apply IH. destruct (step w i st) as [st'|] eqn:Hs; cbn.
    + eapply step_counted; eauto.
    + exact Hc.
Qed.

Lemma step_length (w : world) (i : nat) (st st' : sched_state) :
  step w i st = Some st' -> length (tasks st') = length (tasks st).
Proof.
  unfold step, enter_refresh, release.
  intros H.
  repeat match type of H with
         | context [match ?x with _ => _ end] => destruct x
         end;
    try discriminate; injection H as <-; cbn; apply length_insert.
Qed.

Lemma run_length (w : world) (schedule : list nat) (st : sched_state) :
  length (tasks (run w schedule st)) = length (tasks st).
Proof.
  revert st. induction schedule as [|i rest IH]; intros st; [reflexivity|].
  cbn [run]. rewrite IH. destruct (step w i st) as [st'|] eqn:Hs; cbn.
  - eapply step_length; eauto.
  - reflexivity.
Qed.

Lemma posted_all_done (ts : list task) :
  forallb is_done ts = true -> sum_list (posted <$> ts) = length ts.
Proof.
  induction ts as [|t ts IH]; [reflexivity|].
  cbn. intros H. apply andb_true_iff in H as [Ht Hts].
  destruct t; try discriminate. cbn. rewrite (IH Hts). reflexivity.
Qed.

(** X7: Whatever the order in which the event loop resumes them, callers
    that all find the access token expired have sent one refresh request
    each by the time they have all returned: the lock puts the requests
    one after the other and does not merge them. *)
Lemma one_refresh_per_caller (w : world) (calls : list (string * string))
  (schedule : list nat) :
  access_expired w ->
  Forall (fun p => snd p <> "") calls ->
  all_done (run w schedule (start calls)) = true ->
  refresh_calls (history (run w schedule (start calls))) = length calls.
Proof.
  intros Hexp Hcalls Hdone.
  assert (Hc : counted (start calls)).
  { split; unfold start; cbn [tasks history].
    - rewrite Forall_fmap. eapply Forall_impl; [exact Hcalls|].
      intros [a r] H. exact H.
    - clear. induction calls as [|p calls IH]; [reflexivity|].
      rewrite !fmap_cons. cbn [sum_list sum_list_with posted]. exact IH. }
  destruct (run_counted w schedule _ Hexp Hc) as [_ Hcount].
  rewrite Hcount, (posted_all_done _ Hdone), run_length.
  cbn. apply length_fmap.
Qed.

(** A caller that runs alone goes through the same calls and returns the
    same result as the sequential reading of [get_valid_access_token]. *)
Lemma single_caller_agrees (w : world) (access refresh : string) :
  let st := run w [0; 0; 0; 0]%nat (start [(access, refresh)]) in
  tasks st = [TDone (fst (get_valid_access_token w [] access refresh))]
  /\ history st = snd (get_valid_access_token w [] access refresh).
Proof.
  cbv zeta. unfold get_valid_access_token, validate_token, refresh_access_token, start.
  destruct access as [|c s]; cbn.
  - destruct refresh as [|c' s']; cbn; [split; reflexivity|].
    destruct (refresh_response _) as [[a r]|e]; cbn.
    + destruct (env_file_write w _ a r) as [[]|e]; cbn; [split; reflexivity|].
      destruct e; split; reflexivity.
    + destruct e; split; reflexivity.
  - destruct (validate_except _) as [[v|]|e]; cbn.
    + destruct (near_expiry v); cbn; [|split; reflexivity].
      destruct refresh as [|c' s']; cbn; [split; reflexivity|].
      destruct (refresh_response _) as [[a r]|e]; cbn.
      * destruct (env_file_write w _ a r) as [[]|e]; cbn; [split; reflexivity|].
        destruct e; split; reflexivity.
      * destruct e; split; reflexivity.
    + destruct refresh as [|c' s']; cbn; [split; reflexivity|].
      destruct (refresh_response _) as [[a r]|e]; cbn.
      * destruct (env_file_write w _ a r) as [[]|e]; cbn; [split; reflexivity|].
        destruct e; split; reflexivity.
      * destruct e; split; reflexivity.
    + split; reflexivity.
Qed.

(** C2, at two callers: both find the access token expired while the
    refresh token is [refresh-0].  The first caller takes the lock and
    refreshes; the second waits, then sends its own request with the
    refresh token that the first one has used up, is answered 400 and
    raises.  Two refresh requests are sent and the callers do not get the
    same result. *)
Theorem two_callers_refresh_twice :
  let st := run rotating_world [0; 1; 0; 1; 0; 0; 1; 1]%nat
              (start [("access-0", "refresh-0"); ("access-0", "refresh-0")]) in
  all_done st = true
  /\ refresh_calls (history st) = 2%nat
  /\ tasks st = [TDone (Ret "access-1"); TDone (Raise ValueError)]
  /\ history st = [HttpValidate "access-0"; HttpValidate "access-0";
                   HttpRefresh "refresh-0"; EnvWrite "access-1" "refresh-1";
                   HttpRefresh "refresh-0"].
Proof.
  vm_compute. repeat split; reflexivity.
Qed.

End TokenProperties.

(** *** Instances on concrete answers *)

(** C5 as stated fails: a 500 answer of the validation endpoint is not
    propagated; [validate_token] returns [None] as it does for a 401. *)
Lemma validate_token_server_error_not_raised :
  ~ (forall (w : TokenManager.world) (h : list TokenManager.call) (access : string)
            (status : Z) (body : option TokenManager.validation_data),
       access <> "" ->
       TokenManager.http_get_validate w h access = TokenManager.Response status body ->
       status <> 200 -> status <> 401 ->
       exists e, fst (TokenManager.validate_token w h access) = Raise e).
Proof.
  intros H.
  destruct (H (fixed_world 500 None TokenManager.RequestFailed) [] "access-0" 500 None)
    as [e He]; try discriminate; try reflexivity.
Qed.

Lemma validate_token_outcomes_witness :
  fst (TokenManager.validate_token
         (fixed_world 200 (Some (sample_validation 3600)) TokenManager.RequestFailed)
         [] "access-0")
  = Ret (Some (sample_validation 3600)).
Proof.
  apply (proj1 (proj2 (validate_token_outcomes
                         (fixed_world 200 (Some (sample_validation 3600))
                            TokenManager.RequestFailed)
                         [] "access-0"))).
  - discriminate.
  - reflexivity.
  - left.
  - exists "collector". reflexivity.
  - exists 3600. reflexivity.
Defined.


(** ** Properties of the persistence helpers (database.py) *)

Section DatabaseProperties.
Import Database.

Section Query.
Context {row : Type}.
Variable col : row -> option string.





End Query.







End DatabaseProperties.

(** ** Properties of the collector handlers (collector.py) *)

Section CollectorProperties.
Import Database Collector.

Variable get_streams : option string -> result (list stream_info).

Local Abbreviation handle_message := (_handle_message get_streams).
Local Abbreviation update_status := (update_stream_status get_streams).






End CollectorProperties.

(** *** Instances on concrete events *)




(** ** Further properties of the token manager (token_manager.py) *)

Section TokenCalls.
Import TokenManager.

(** X1: [validate_token] never raises; it makes one request for a non-empty
    token and none for an empty one, which is reported invalid. *)
Theorem validate_token_one_request (w : world) (h : list call) (access : string) :
  exists v, fst (validate_token w h access) = Ret v
    /\ (access = "" -> v = None /\ snd (validate_token w h access) = h)
    /\ (access <> "" ->
          snd (validate_token w h access) = h ++ [HttpValidate access]).
Proof.
  unfold validate_token. destruct access as [|c s]; cbn [fst snd].
  - exists None. repeat split; congruence.
  - destruct (validate_response _) as [v|e]; cbn [validate_except].
    + exists v. repeat split; congruence.
    + exists None. destruct e; repeat split; congruence.
Qed.

(** X2: A refresh that returns a token pair has been answered 200 with that
    pair and has written it to the environment file, the write coming
    right after the request and nothing else being called. *)
Theorem refresh_returns_saved_pair (w : world) (h : list call)
  (refresh a r : string) :
  fst (refresh_access_token w h refresh) = Ret (a, r) ->
  refresh <> ""
  /\ http_post_token w h refresh
     = Response 200 (Some {| access_token := Some a; refresh_token := Some r |})
  /\ env_file_write w (h ++ [HttpRefresh refresh]) a r = Ret tt
  /\ snd (refresh_access_token w h refresh)
     = h ++ [HttpRefresh refresh; EnvWrite a r].
Proof.
  unfold refresh_access_token. destruct refresh as [|c s]; [discriminate|].
  intros H. split; [discriminate|].
  destruct (http_post_token w h (String c s)) as [status body| |e] eqn:Hpost;
    cbn [refresh_response] in H.
  - destruct (status =? 200) eqn:Hs.
    + apply Z.eqb_eq in Hs. subst status.
      destruct body as [[[a'|] [r'|]]|]; cbn in H; try discriminate.
      destruct (env_file_write w (h ++ [HttpRefresh (String c s)]) a' r')
        as [[]|e] eqn:Hw; cbn in H |- *.
      * injection H as <- <-.
        split; [reflexivity|]. split; [exact Hw|].
        rewrite <- app_assoc. reflexivity.
      * destruct e; discriminate.
    + destruct ((status =? 400) || (status =? 401)); discriminate.
  - discriminate.
  - destruct e; discriminate.
Qed.

(** X3: A refresh that cannot succeed raises: an empty refresh token raises
    [ValueError] before any call; an answer other than 200 and a network
    error raise [ValueError] after the request, with nothing written; and
    whatever happens, no [RequestException] leaves the method. *)
Theorem refresh_failures_raise (w : world) (h : list call) (refresh : string) :
  (refresh = "" -> refresh_access_token w h refresh = (Raise ValueError, h))
  /\ (forall status body, refresh <> "" ->
        http_post_token w h refresh = Response status body -> status <> 200 ->
        refresh_access_token w h refresh
        = (Raise ValueError, h ++ [HttpRefresh refresh]))
  /\ (refresh <> "" -> http_post_token w h refresh = RequestFailed ->
        refresh_access_token w h refresh
        = (Raise ValueError, h ++ [HttpRefresh refresh]))
  /\ fst (refresh_access_token w h refresh) <> Raise RequestException.
Proof.
  unfold refresh_access_token. destruct refresh as [|c s].
  - repeat split; try congruence. discriminate.
  - split; [discriminate|]. split; [|split].
    + intros status body _ Hpost Hne. rewrite Hpost. cbn [refresh_response].
      destruct (status =? 200) eqn:Hs; [apply Z.eqb_eq in Hs; contradiction|].
      destruct ((status =? 400) || (status =? 401)); reflexivity.
    + intros _ Hpost. rewrite Hpost. reflexivity.
    + destruct (refresh_response _) as [[a r]|e]; cbn [fst].
      * destruct (env_file_write w _ a r) as [[]|e]; cbn [bind refresh_except];
          [discriminate | destruct e; discriminate].
      * destruct e; discriminate.
Qed.

(** X4: [get_valid_access_token] returns the current token or the access
    token of a refresh that returned; it raises only when the validation
    reported the token invalid; and it sends at most one refresh request
    and makes at most three calls in all. *)
Theorem get_valid_access_token_bounds (w : world) (h : list call)
  (current refresh : string) :
  let validated := validate_token w h current in
  let answer := get_valid_access_token w h current refresh in
  (forall t, fst answer = Ret t ->
     t = current
     \/ exists r, fst (refresh_access_token w (snd validated) refresh) = Ret (t, r))
  /\ (forall e, fst answer = Raise e -> fst validated = Ret None)
  /\ (refresh_calls (snd answer) <= refresh_calls h + 1)%nat
  /\ (length (snd answer) <= length h + 3)%nat.
Proof.
  cbv zeta.
  assert (Hv : (length (snd (validate_token w h current)) <= length h + 1)%nat
               /\ refresh_calls (snd (validate_token w h current)) = refresh_calls h).
  { unfold validate_token. destruct current; cbn [snd].
    - split; [lia | reflexivity].
    - rewrite length_app, refresh_calls_snoc. cbn. lia. }
  assert (Hr : forall h1,
             (length (snd (refresh_access_token w h1 refresh)) <= length h1 + 2)%nat
             /\ (refresh_calls (snd (refresh_access_token w h1 refresh))
                 <= refresh_calls h1 + 1)%nat).
  { intros h1. unfold refresh_access_token. destruct refresh as [|c s]; cbn [snd].
    - split; lia.
    - destruct (refresh_response _) as [[a r]|e]; cbn [snd];
        rewrite ?length_app, ?refresh_calls_snoc; cbn; lia. }
  destruct (validate_token_returns w h current) as [v0 Hfst].
  destruct Hv as [Hvl Hvr].
  unfold get_valid_access_token.
  destruct (validate_token w h current) as [[[v|]|e] h1]; cbn [fst snd] in *.
  - destruct (near_expiry v).
    + destruct (Hr h1) as [Hrl Hrr].
      destruct (refresh_access_token w h1 refresh) as [[[a r]|e] h2];
        cbn [fst snd] in *.
      * split; [intros t H; injection H as <-; right; eauto|].
        split; [discriminate|]. split; lia.
      * split; [intros t H; injection H as <-; left; reflexivity|].
        split; [discriminate|]. split; lia.
    + cbn [fst snd].
      split; [intros t H; injection H as <-; left; reflexivity|].
      split; [discriminate|]. split; lia.
  - destruct (Hr h1) as [Hrl Hrr].
    destruct (refresh_access_token w h1 refresh) as [[[a r]|e] h2];
      cbn [fst snd] in *.
    + split; [intros t H; injection H as <-; right; eauto|].
      split; [discriminate|]. split; lia.
    + split; [discriminate|]. split; [reflexivity|]. split; lia.
  - discriminate.
Qed.

End TokenCalls.

(** ** The refresh lock (token_manager.py) *)

Section TokenLockProperties.
Import TokenManager TokenLock.

Lemma sum_insert (f : task -> nat) (ts : list task) (i : nat) (t t' : task) :
  ts !! i = Some t ->
  (sum_list (f <$> <[i := t']> ts) + f t = sum_list (f <$> ts) + f t')%nat.
Proof.
  revert i. induction ts as [|x ts IH]; intros i H.
  - discriminate.
  - destruct i as [|i].
    + injection H as ->. cbn. lia.
    + cbn in H. specialize (IH i H).
      change (<[S i:=t']> (x :: ts)) with (x :: <[i:=t']> ts).
      rewrite !fmap_cons. cbn [sum_list sum_list_with]. lia.
Qed.

Lemma sum_bound (f : task -> nat) (ts : list task) (i : nat) (t : task) :
  ts !! i = Some t -> (f t <= sum_list (f <$> ts))%nat.
Proof.
  revert i. induction ts as [|x ts IH]; intros i H; [discriminate|].
  rewrite fmap_cons. cbn [sum_list sum_list_with].
  destruct i as [|i].
  - injection H as ->. unfold id. lia.
  - specialize (IH i H). lia.
Qed.

(** The queue is unaffected when a task that was not waiting moves to a
    state in which it is not waiting. *)
Lemma queue_kept (ts : list task) (ws : list nat) (i : nat) (t t' : task) :
  ts !! i = Some t -> is_waiting t = false -> is_waiting t' = false ->
  (forall j, j ∈ ws <-> exists t0, ts !! j = Some t0 /\ is_waiting t0 = true) ->
  forall j, j ∈ ws <->
            exists t0, <[i := t']> ts !! j = Some t0 /\ is_waiting t0 = true.
Proof.
  intros Hi Ht Ht' Hq j. rewrite Hq. split; intros (t0 & Hj & Hw).
  - exists t0. split; [|exact Hw].
    destruct (decide (i = j)) as [->|Hne]; [congruence|].
    rewrite list_lookup_insert_ne by exact Hne. exact Hj.
  - apply list_lookup_insert_Some in Hj as [(-> & <- & _) | (Hne & Hj)];
      [congruence | eauto].
Qed.

Lemma queue_joined (ts : list task) (ws : list nat) (i : nat) (t t' : task) :
  ts !! i = Some t -> is_waiting t = false -> is_waiting t' = true ->
  NoDup ws ->
  (forall j, j ∈ ws <-> exists t0, ts !! j = Some t0 /\ is_waiting t0 = true) ->
  NoDup (ws ++ [i])
  /\ forall j, j ∈ ws ++ [i] <->
               exists t0, <[i := t']> ts !! j = Some t0 /\ is_waiting t0 = true.
Proof.
  intros Hi Ht Ht' Hnd Hq.
  assert (Hfresh : i ∉ ws).
  { intros Hin. apply Hq in Hin as (t0 & H0 & Hw). congruence. }
  split.
  - apply NoDup_app. split; [exact Hnd|]. split; [|apply NoDup_singleton].
    intros x Hx Hxi. apply list_elem_of_singleton in Hxi. congruence.
  - intros j. rewrite elem_of_app, list_elem_of_singleton, Hq.
    split.
    + intros [(t0 & Hj & Hw) | ->].
      * exists t0. split; [|exact Hw].
        destruct (decide (i = j)) as [->|Hne]; [congruence|].
        rewrite list_lookup_insert_ne by exact Hne. exact Hj.
      * exists t'. split; [|exact Ht'].
        apply list_lookup_insert_eq, lookup_lt_is_Some. eauto.
    + intros (t0 & Hj & Hw).
      apply list_lookup_insert_Some in Hj as [(-> & <- & _) | (Hne & Hj)];
        [right; reflexivity | left; eauto].
Qed.

Lemma queue_left (ts : list task) (ws : list nat) (i : nat) (t t' : task) :
  ts !! i = Some t -> is_waiting t' = false ->
  NoDup (i :: ws) ->
  (forall j, j ∈ i :: ws <-> exists t0, ts !! j = Some t0 /\ is_waiting t0 = true) ->
  NoDup ws
  /\ forall j, j ∈ ws <->
               exists t0, <[i := t']> ts !! j = Some t0 /\ is_waiting t0 = true.
Proof.
  intros Hi Ht' Hnd Hq. apply NoDup_cons in Hnd as [Hfresh Hnd].
  split; [exact Hnd|]. intros j. split.
  - intros Hj.
    assert (Hne : i <> j) by (intros ->; contradiction).
    destruct (proj1 (Hq j)) as (t0 & H0 & Hw); [right; exact Hj|].
    exists t0. rewrite list_lookup_insert_ne by exact Hne. auto.
  - intros (t0 & Hj & Hw).
    apply list_lookup_insert_Some in Hj as [(-> & <- & _) | (Hne & Hj)];
      [congruence|].
    assert (Hin : j ∈ i :: ws) by (apply Hq; eauto).
    apply elem_of_cons in Hin as [->|Hin]; [congruence | exact Hin].
Qed.

Lemma enter_refresh_consistent (w : world) (i : nat) (fallback : option string)
  (refresh : string) (st : sched_state) (t : task) :
  tasks st !! i = Some t -> holds t = 0%nat -> is_waiting t = false ->
  consistent st -> consistent (enter_refresh w i fallback refresh st).
Proof.
  intros Hi Hh Hw [Hlock Hnd Hq]. unfold enter_refresh.
  pose proof (sum_insert holds (tasks st) i t) as Hsum.
  destruct refresh as [|c s].
  - split; cbn [tasks locked waiters].
    + specialize (Hsum (TDone (finish fallback (Raise ValueError))) Hi).
      cbn [holds] in Hsum. lia.
    + exact Hnd.
    + eapply queue_kept; eauto.
  - destruct (locked st) eqn:Hl; cbn [negb andb].
    + destruct (queue_joined _ _ i t (TWaitLock fallback (String c s)) Hi Hw eq_refl
                  Hnd Hq) as [Hnd' Hq'].
      split; cbn [tasks locked waiters]; [|exact Hnd' | exact Hq'].
      specialize (Hsum (TWaitLock fallback (String c s)) Hi).
      cbn [holds] in Hsum. lia.
    + destruct (bool_decide (waiters st = [])).
      * split; cbn [tasks locked waiters].
        -- specialize (Hsum (TPosting fallback
                               (http_post_token w (history st) (String c s))) Hi).
           cbn [holds] in Hsum. lia.
        -- exact Hnd.
        -- eapply queue_kept; eauto.
      * destruct (queue_joined _ _ i t (TWaitLock fallback (String c s)) Hi Hw eq_refl
                    Hnd Hq) as [Hnd' Hq'].
        split; cbn [tasks locked waiters]; [|exact Hnd' | exact Hq'].
        specialize (Hsum (TWaitLock fallback (String c s)) Hi).
        cbn [holds] in Hsum. lia.
Qed.

Lemma release_consistent (i : nat) (r : result string) (st : sched_state) (t : task) :
  tasks st !! i = Some t -> holds t = 1%nat -> is_waiting t = false ->
  consistent st -> consistent (release i r st).
Proof.
  intros Hi Hh Hw [Hlock Hnd Hq]. unfold release.
  pose proof (sum_insert holds (tasks st) i t (TDone r) Hi) as Hsum.
  pose proof (sum_bound holds (tasks st) i t Hi) as Hb.
  split; cbn [tasks locked waiters].
  - cbn [holds] in Hsum. destruct (locked st); lia.
  - exact Hnd.
  - eapply queue_kept; eauto.
Qed.

Lemma step_consistent (w : world) (i : nat) (st st' : sched_state) :
  consistent st -> step w i st = Some st' -> consistent st'.
Proof.
  intros Hc. pose proof Hc as [Hlock Hnd Hq]. unfold step.
  destruct (tasks st !! i) as [t|] eqn:Hi; [|discriminate].
  pose proof (sum_insert holds (tasks st) i t) as Hsum.
  destruct t as [access refresh|o access refresh|fb refresh|fb o|fb saved a r|res].
  - destruct access as [|c s]; intros H; injection H as <-.
    + eapply enter_refresh_consistent; eauto.
    + split; cbn [tasks locked waiters].
      * specialize (Hsum (TValidating (http_get_validate w (history st) (String c s))
                            (String c s) refresh) Hi).
        cbn [holds] in Hsum. lia.
      * exact Hnd.
      * eapply queue_kept; eauto.
  - destruct (validate_except (validate_response o)) as [[v|]|e].
    + destruct (near_expiry v); intros H; injection H as <-.
      * eapply enter_refresh_consistent; eauto.
      * split; cbn [tasks locked waiters].
        -- specialize (Hsum (TDone (Ret access)) Hi). cbn [holds] in Hsum. lia.
        -- exact Hnd.
        -- eapply queue_kept; eauto.
    + intros H; injection H as <-. eapply enter_refresh_consistent; eauto.
    + intros H; injection H as <-. split; cbn [tasks locked waiters].
      * specialize (Hsum (TDone (Raise e)) Hi). cbn [holds] in Hsum. lia.
      * exact Hnd.
      * eapply queue_kept; eauto.
  - destruct (locked st) eqn:Hl; [discriminate|].
    destruct (waiters st) as [|j rest] eqn:Hws; [discriminate|].
    destruct (bool_decide (j = i)) eqn:Hji; [|discriminate].
    apply bool_decide_eq_true in Hji. subst j.
    intros H; injection H as <-.
    destruct (queue_left _ _ i _ (TPosting fb (http_post_token w (history st) refresh))
                Hi eq_refl Hnd Hq) as [Hnd' Hq'].
    split; cbn [tasks locked waiters]; [|exact Hnd' | exact Hq'].
    specialize (Hsum (TPosting fb (http_post_token w (history st) refresh)) Hi).
    cbn [holds] in Hsum. lia.
  - destruct (refresh_response o) as [[a r]|e]; intros H; injection H as <-.
    + split; cbn [tasks locked waiters].
      * specialize (Hsum (TSaving fb (env_file_write w (history st) a r) a r) Hi).
        cbn [holds] in Hsum. lia.
      * exact Hnd.
      * eapply queue_kept; eauto.
    + eapply release_consistent; eauto.
  - intros H; injection H as <-. eapply release_consistent; eauto.
  - discriminate.
Qed.

Lemma start_consistent (calls : list (string * string)) : consistent (start calls).
Proof.
  split; unfold start; cbn [tasks locked waiters].
  - induction calls as [|p calls IH]; [reflexivity|].
    rewrite !fmap_cons. cbn [sum_list sum_list_with holds]. exact IH.
  - apply NoDup_nil_2.
  - intros j. split; [intros H; inversion H|].
    intros (t0 & Hj & Hw). rewrite list_lookup_fmap in Hj.
    destruct (calls !! j); cbn in Hj; [|discriminate].
    injection Hj as <-. discriminate.
Qed.

Lemma run_consistent (w : world) (schedule : list nat) (st : sched_state) :
  consistent st -> consistent (run w schedule st).
Proof.
  revert st. induction schedule as [|i rest IH]; intros st Hc; [exact Hc|].
  cbn [run]. apply IH. destruct (step w i st) as [st'|] eqn:Hs; cbn.
  - eapply step_consistent; eauto.
  - exact Hc.
Qed.

Lemma holder_exists (ts : list task) :
  sum_list (holds <$> ts) = 1%nat ->
  exists i t, ts !! i = Some t /\ holds t = 1%nat.
Proof.
  induction ts as [|t ts IH]; [discriminate|].
  rewrite fmap_cons. cbn [sum_list sum_list_with]. unfold id.
  destruct (holds t) as [|[|n]] eqn:Hh.
  - intros H. destruct (IH H) as (i & t0 & Hi & H0). exists (S i), t0. auto.
  - intros _. exists 0%nat, t. auto.
  - intros H. lia.
Qed.

(** X5: Whatever the schedule, two callers are never inside the locked block
    of [refresh_access_token] at the same time, and the lock is taken
    exactly when one caller is inside. *)
Theorem refresh_lock_exclusive (w : world) (calls : list (string * string))
  (schedule : list nat) :
  let st := run w schedule (start calls) in
  (forall i j ti tj,
     tasks st !! i = Some ti -> tasks st !! j = Some tj ->
     holds ti = 1%nat -> holds tj = 1%nat -> i = j)
  /\ (locked st = true <-> exists i t, tasks st !! i = Some t /\ holds t = 1%nat).
Proof.
  cbv zeta.
  destruct (run_consistent w schedule _ (start_consistent calls)) as [Hlock _ _].
  set (st := run w schedule (start calls)) in *.
  assert (Hle : (sum_list (holds <$> tasks st) <= 1)%nat)
    by (destruct (locked st); lia).
  split.
  - intros i j ti tj Hi Hj Hhi Hhj.
    destruct (decide (i = j)) as [|Hne]; [assumption|]. exfalso.
    pose proof (sum_insert holds (tasks st) i ti (TDone (Ret "")) Hi) as Hs.
    assert (Hj' : <[i := TDone (Ret "")]> (tasks st) !! j = Some tj)
      by (rewrite list_lookup_insert_ne by exact Hne; exact Hj).
    pose proof (sum_bound holds _ j tj Hj') as Hb.
    cbn [holds] in Hs. lia.
  - split.
    + intros Hl. rewrite Hl in Hlock. apply holder_exists. exact Hlock.
    + intros (i & t & Hi & Hh).
      pose proof (sum_bound holds (tasks st) i t Hi) as Hb.
      destruct (locked st); [reflexivity | lia].
Qed.

(** *** No deadlock *)

Lemma unfinished_task (ts : list task) :
  forallb is_done ts = false ->
  exists i t, ts !! i = Some t /\ is_done t = false.
Proof.
  induction ts as [|t ts IH]; [discriminate|].
  cbn [forallb]. destruct (is_done t) eqn:Hd.
  - intros H. destruct (IH H) as (i & t0 & Hi & H0). exists (S i), t0. auto.
  - intros _. exists 0%nat, t. auto.
Qed.

(** A task that is neither done nor waiting for the lock can always be
    resumed. *)
Lemma runnable_steps (w : world) (st : sched_state) (i : nat) (t : task) :
  tasks st !! i = Some t -> is_done t = false -> is_waiting t = false ->
  is_Some (step w i st).
Proof.
  intros Hi Hd Hw. unfold step. rewrite Hi.
  destruct t as [access refresh|o access refresh|fb refresh|fb o|fb saved a r|res];
    try discriminate.
  - destruct access; eauto.
  - destruct (validate_except (validate_response o)) as [[v|]|e]; eauto.
    destruct (near_expiry v); eauto.
  - destruct (refresh_response o) as [[a r]|e]; eauto.
  - eauto.
Qed.

(** As long as a caller has not returned, some caller can be resumed. *)
Lemma some_task_steps (w : world) (st : sched_state) :
  consistent st -> all_done st = false -> exists i st', step w i st = Some st'.
Proof.
  intros [Hlock Hnd Hq] Hdone.
  destruct (unfinished_task _ Hdone) as (i & t & Hi & Hd).
  destruct (is_waiting t) eqn:Hw.
  - destruct (locked st) eqn:Hl.
    + destruct (holder_exists _ Hlock) as (k & tk & Hk & Hh).
      assert (Hs : is_Some (step w k st)).
      { apply (runnable_steps w st k tk Hk); destruct tk; try discriminate;
          reflexivity. }
      destruct Hs as [st' Hs]. eauto.
    + assert (Hin : i ∈ waiters st) by (apply Hq; eauto).
      destruct (waiters st) as [|j rest] eqn:Hws; [inversion Hin|].
      destruct (proj1 (Hq j)) as (tj & Hj & Hwj); [left|].
      destruct tj; try discriminate.
      exists j. unfold step. rewrite Hj, Hl, Hws.
      rewrite bool_decide_eq_true_2 by reflexivity. eauto.
  - destruct (runnable_steps w st i t Hi Hd Hw) as [st' Hs]. eauto.
Qed.

Lemma enter_refresh_progress (w : world) (i : nat) (fallback : option string)
  (refresh : string) (st : sched_state) (t : task) :
  tasks st !! i = Some t -> (progress t < 2)%nat ->
  (sum_list (progress <$> tasks st)
   < sum_list (progress <$> tasks (enter_refresh w i fallback refresh st)))%nat.
Proof.
  intros Hi Hp. unfold enter_refresh.
  pose proof (sum_insert progress (tasks st) i t) as Hsum.
  destruct refresh as [|c s]; cbn [tasks].
  - specialize (Hsum (TDone (finish fallback (Raise ValueError))) Hi).
    cbn [progress] in Hsum. lia.
  - destruct (negb (locked st) && bool_decide (waiters st = [])); cbn [tasks].
    + specialize (Hsum (TPosting fallback
                          (http_post_token w (history st) (String c s))) Hi).
      cbn [progress] in Hsum. lia.
    + specialize (Hsum (TWaitLock fallback (String c s)) Hi).
      cbn [progress] in Hsum. lia.
Qed.

(** Every step moves its task forward. *)
Lemma step_progress (w : world) (i : nat) (st st' : sched_state) :
  step w i st = Some st' ->
  (sum_list (progress <$> tasks st) < sum_list (progress <$> tasks st'))%nat.
Proof.
  unfold step.
  destruct (tasks st !! i) as [t|] eqn:Hi; [|discriminate].
  pose proof (sum_insert progress (tasks st) i t) as Hsum.
  destruct t as [access refresh|o access refresh|fb refresh|fb o|fb saved a r|res].
  - destruct access as [|c s]; intros H; injection H as <-.
    + eapply enter_refresh_progress; [exact Hi | cbn; lia].
    + cbn [tasks].
      specialize (Hsum (TValidating (http_get_validate w (history st) (String c s))
                          (String c s) refresh) Hi).
      cbn [progress] in Hsum. lia.
  - destruct (validate_except (validate_response o)) as [[v|]|e].
    + destruct (near_expiry v); intros H; injection H as <-.
      * eapply enter_refresh_progress; [exact Hi | cbn; lia].
      * cbn [tasks]. specialize (Hsum (TDone (Ret access)) Hi).
        cbn [progress] in Hsum. lia.
    + intros H; injection H as <-.
      eapply enter_refresh_progress; [exact Hi | cbn; lia].
    + intros H; injection H as <-. cbn [tasks].
      specialize (Hsum (TDone (Raise e)) Hi). cbn [progress] in Hsum. lia.
  - destruct (locked st); [discriminate|].
    destruct (waiters st) as [|j rest]; [discriminate|].
    destruct (bool_decide (j = i)); [|discriminate].
    intros H; injection H as <-. cbn [tasks].
    specialize (Hsum (TPosting fb (http_post_token w (history st) refresh)) Hi).
    cbn [progress] in Hsum. lia.
  - destruct (refresh_response o) as [[a r]|e]; intros H; injection H as <-;
      cbn [tasks release].
    + specialize (Hsum (TSaving fb (env_file_write w (history st) a r) a r) Hi).
      cbn [progress] in Hsum. lia.
    + match goal with
      | |- context [<[i := ?t']> (tasks st)] => specialize (Hsum t' Hi)
      end.
      cbn [progress] in Hsum. lia.
  - intros H; injection H as <-. cbn [tasks release].
    match goal with
    | |- context [<[i := ?t']> (tasks st)] => specialize (Hsum t' Hi)
    end.
    cbn [progress] in Hsum. lia.
  - discriminate.
Qed.

Lemma progress_bound (ts : list task) :
  (sum_list (progress <$> ts) <= 5 * length ts)%nat
  /\ (forallb is_done ts = false -> (sum_list (progress <$> ts) < 5 * length ts)%nat).
Proof.
  induction ts as [|t ts [IH1 IH2]]; [split; [cbn; lia | discriminate]|].
  change (sum_list (progress <$> t :: ts))
    with (progress t + sum_list (progress <$> ts))%nat.
  cbn [length forallb].
  assert (Ht : (progress t <= 5)%nat) by (destruct t; cbn; lia).
  split; [lia|].
  destruct (is_done t) eqn:Hd; cbn [andb].
  - intros H. specialize (IH2 H). lia.
  - intros _. assert ((progress t < 5)%nat) by (destruct t; cbn; try lia; discriminate).
    lia.
Qed.

Lemma run_app (w : world) (s1 s2 : list nat) (st : sched_state) :
  run w (s1 ++ s2) st = run w s2 (run w s1 st).
Proof.
  revert st. induction s1 as [|i s1 IH]; intros st; [reflexivity|].
  cbn [app run]. apply IH.
Qed.

Lemma completion_from (w : world) (n : nat) (st : sched_state) :
  consistent st ->
  (5 * length (tasks st) <= sum_list (progress <$> tasks st) + n)%nat ->
  exists rest, (length rest <= n)%nat /\ all_done (run w rest st) = true.
Proof.
  revert st. induction n as [|n IH]; intros st Hc Hn.
  - exists []. split; [reflexivity|]. cbn [run].
    destruct (all_done st) eqn:Hd; [reflexivity|].
    pose proof (proj2 (progress_bound (tasks st)) Hd). lia.
  - destruct (all_done st) eqn:Hd.
    + exists []. split; [cbn; lia | exact Hd].
    + destruct (some_task_steps w st Hc Hd) as (i & st' & Hs).
      pose proof (step_progress w i st st' Hs) as Hp.
      pose proof (step_length w i st st' Hs) as Hlen.
      destruct (IH st' (step_consistent w i st st' Hc Hs)) as (rest & Hr & Hdone);
        [lia|].
      exists (i :: rest). split; [cbn; lia|].
      cbn [run]. rewrite Hs. exact Hdone.
Qed.

(** X6: The lock cannot deadlock: after any schedule, the callers can all be
    run to their return, within five steps per caller. *)
Theorem callers_can_all_return (w : world) (calls : list (string * string))
  (schedule : list nat) :
  exists rest,
    (length rest <= 5 * length calls)%nat
    /\ all_done (run w (schedule ++ rest) (start calls)) = true.
Proof.
  pose proof (run_consistent w schedule _ (start_consistent calls)) as Hc.
  destruct (completion_from w (5 * length calls) _ Hc) as (rest & Hr & Hd).
  - rewrite run_length. unfold start. cbn [tasks]. rewrite length_fmap. lia.
  - exists rest. split; [exact Hr|]. rewrite run_app. exact Hd.
Qed.

End TokenLockProperties.

(** ** Further properties of the protocol client (twitch_irc.py) *)

Section ClientEventProperties.
Import PyStr TwitchIRC TwitchIRCEvents Reference.

Context {datetime : Type}.
Variable utcnow : nat -> datetime.
Variable from_millis : Z -> result datetime.

Lemma span_stop (p : ascii -> bool) (a b : string) :
  (forall c, contains (String c "") a = true -> p c = true) ->
  match b with String d _ => p d = false | EmptyString => True end ->
  span p (a +:+ b) = (a, b).
Proof.
  intros Ha Hb. induction a as [|c a IH].
  - rewrite append_empty_l. destruct b as [|d b]; [reflexivity|].
    cbn [span]. rewrite Hb. reflexivity.
  - rewrite append_cons. cbn [span]. rewrite (Ha c).
    + rewrite IH; [reflexivity|]. intros d Hd. apply Ha.
      cbn [contains]. rewrite Hd. apply orb_true_r.
    + cbn [contains startswith]. rewrite Ascii.eqb_refl. reflexivity.
Qed.

Lemma absent_char (c0 : ascii) (s : string) :
  contains (String c0 "") s = false ->
  forall c, contains (String c "") s = true -> negb (Ascii.eqb c c0) = true.
Proof.
  intros H c Hc. apply negb_true_iff.
  destruct (Ascii.eqb c c0) eqn:E; [|reflexivity].
  apply Ascii.eqb_eq in E. subst c. congruence.
Qed.

Lemma after_first_here (lit s tail : string) :
  startswith lit s = true -> after_first lit s = Some tail -> s = lit +:+ tail.
Proof.
  intros Hst. destruct s; cbn [after_first]; rewrite Hst;
    intros [= <-]; exact (startswith_split _ _ Hst).
Qed.

Lemma after_first_next (lit : string) (c : ascii) (s : string) :
  startswith lit (String c s) = false ->
  after_first lit (String c s) = after_first lit s.
Proof. intros Hst. cbn [after_first]. rewrite Hst. reflexivity. Qed.

Lemma clearchat_search_first (message tail : string) (m : string * option string) :
  after_first "CLEARCHAT #" message = Some tail ->
  clearchat_at ("CLEARCHAT #" +:+ tail) = Some m ->
  clearchat_search message = Some m.
Proof.
  intros Hafter Hat. induction message as [|c s IH].
  - discriminate.
  - cbn [clearchat_search].
    destruct (startswith "CLEARCHAT #" (String c s)) eqn:Hst.
    + rewrite <- (after_first_here _ _ _ Hst Hafter) in Hat.
      rewrite Hat. reflexivity.
    + rewrite (clearchat_at_not_here _ Hst).
      rewrite (after_first_next _ _ _ Hst) in Hafter. exact (IH Hafter).
Qed.

(** X11: A single-user clear is read back as written: when the text after the
    first [CLEARCHAT #] is a channel name without space, then [ :] and a
    user name that runs to the end of the line (the end of the frame or
    a line feed), the event, if one is built, names that channel and
    that user (stripped), and the line is never taken for a channel-wide
    clear. *)
Theorem clearchat_reads_channel_and_user (message chan user rest : string) :
  after_first "CLEARCHAT #" message = Some (chan +:+ " :" +:+ user +:+ rest) ->
  chan <> "" -> contains " " chan = false ->
  user <> "" -> contains (String "010" "") user = false ->
  rest = "" \/ startswith (String "010" "") rest = true ->
  clearchat_search message = Some (chan, Some user)
  /\ match _handle_clearchat utcnow from_millis true message with
     | Ret (Some ev) =>
         TwitchIRC.broadcaster_user_login ev = chan
         /\ TwitchIRC.user_login ev = strip user
         /\ TwitchIRC.user_name ev = strip user
     | Ret None => False
     | Raise _ => True
     end.
Proof.
  intros Hafter Hchan Hsp Huser Hnl Hrest.
  assert (Hs : clearchat_search message = Some (chan, Some user)).
  { apply (clearchat_search_first _ _ _ Hafter).
    unfold clearchat_at.
    change (startswith "CLEARCHAT #"
              ("CLEARCHAT #" +:+ chan +:+ " :" +:+ user +:+ rest)) with true.
    change (drop 11 ("CLEARCHAT #" +:+ chan +:+ " :" +:+ user +:+ rest))
      with (chan +:+ " :" +:+ user +:+ rest).
    cbn match.
    rewrite (span_stop not_space chan (" :" +:+ user +:+ rest));
      [|apply (absent_char " "); exact Hsp | reflexivity].
    destruct chan as [|c chan]; [congruence|].
    change (" :" +:+ user +:+ rest) with (String " " (String ":" (user +:+ rest))).
    unfold clearchat_group2.
    rewrite (span_stop not_newline user rest).
    - cbn [fst]. destruct user; [congruence | reflexivity].
    - apply (absent_char "010"). exact Hnl.
    - destruct Hrest as [-> | Hrest]; [exact I|].
      destruct rest as [|d rest]; [exact I|].
      cbn [startswith] in Hrest. apply andb_true_iff in Hrest as [Hd _].
      apply Ascii.eqb_eq in Hd. subst d. reflexivity. }
  split; [exact Hs|].
  unfold _handle_clearchat. rewrite Hs. cbn [negb].
  destruct (_parse_tmi_timestamp _ _ _ _) as [d|e]; cbn [bind]; [|exact I].
  repeat split; reflexivity.
Qed.

Lemma privmsg_search_first (message tail : string) (m : string * string) :
  after_first "PRIVMSG #" message = Some tail ->
  privmsg_at ("PRIVMSG #" +:+ tail) = Some m ->
  privmsg_search message = Some m.
Proof.
  intros Hafter Hat. induction message as [|c s IH].
  - discriminate.
  - cbn [privmsg_search].
    destruct (startswith "PRIVMSG #" (String c s)) eqn:Hst.
    + rewrite <- (after_first_here _ _ _ Hst Hafter) in Hat.
      rewrite Hat. reflexivity.
    + unfold privmsg_at at 1. rewrite Hst.
      rewrite (after_first_next _ _ _ Hst) in Hafter. exact (IH Hafter).
Qed.

(** X12: A chat line is read back as written: when the text after the first
    [PRIVMSG #] is a channel name without space, then [ :] and a text
    that runs to the end of the line (the end of the frame or a line
    feed), the event, if one is built, carries that channel and that
    text (stripped), and an event is built whenever the callback is
    installed and the timestamp converts. *)
Theorem privmsg_reads_channel_and_text (message chan text rest : string) :
  after_first "PRIVMSG #" message = Some (chan +:+ " :" +:+ text +:+ rest) ->
  chan <> "" -> contains " " chan = false ->
  text <> "" -> contains (String "010" "") text = false ->
  rest = "" \/ startswith (String "010" "") rest = true ->
  privmsg_search message = Some (chan, text)
  /\ match _handle_privmsg utcnow from_millis true message with
     | Ret (Some ev) =>
         TwitchIRCEvents.broadcaster_user_login ev = chan
         /\ TwitchIRCEvents.message_text ev = strip text
     | Ret None => False
     | Raise _ => True
     end.
Proof.
  intros Hafter Hchan Hsp Htext Hnl Hrest.
  assert (Hs : privmsg_search message = Some (chan, text)).
  { apply (privmsg_search_first _ _ _ Hafter).
    unfold privmsg_at.
    change (startswith "PRIVMSG #"
              ("PRIVMSG #" +:+ chan +:+ " :" +:+ text +:+ rest)) with true.
    change (drop 9 ("PRIVMSG #" +:+ chan +:+ " :" +:+ text +:+ rest))
      with (chan +:+ " :" +:+ text +:+ rest).
    cbn match.
    rewrite (span_stop not_space chan (" :" +:+ text +:+ rest));
      [|apply (absent_char " "); exact Hsp | reflexivity].
    destruct chan as [|c chan]; [congruence|].
    change (" :" +:+ text +:+ rest) with (String " " (String ":" (text +:+ rest))).
    cbv beta iota.
    rewrite (span_stop not_newline text rest).
    - cbn [fst]. destruct text; [congruence | reflexivity].
    - apply (absent_char "010"). exact Hnl.
    - destruct Hrest as [-> | Hrest]; [exact I|].
      destruct rest as [|d rest]; [exact I|].
      cbn [startswith] in Hrest. apply andb_true_iff in Hrest as [Hd _].
      apply Ascii.eqb_eq in Hd. subst d. reflexivity. }
  split; [exact Hs|].
  unfold _handle_privmsg. rewrite Hs. cbn [negb].
  destruct (_parse_tmi_timestamp _ _ _ _) as [d|e]; cbn [bind]; [|exact I].
  split; reflexivity.
Qed.


(** X14: A line has at most one effect.  A line that does not start with
    [PING] leaves the client as it is, so nothing is written to the
    socket, and invokes at most one callback.  A [PING] line invokes no
    callback and at most appends its reply to what was sent; it never
    changes the joined channels. *)
Theorem line_has_one_effect (on_message on_delete : bool) (c : client)
  (message : string) :
  let r := handle_line utcnow from_millis on_message on_delete c message in
  (length (snd r) <= 1)%nat
  /\ (startswith "PING" message = false -> fst r = c)
  /\ (startswith "PING" message = true ->
        snd r = []
        /\ joined_channels (fst r) = joined_channels c
        /\ (fst r = c
            \/ sent (fst r) = sent c ++ [replace "PING" "PONG" message])).
Proof.
  cbv zeta. unfold handle_line, TwitchIRC._handle_message.
  destruct (startswith "PING" message).
  - unfold send. destruct (websocket_open c); cbn [bind fst snd].
    + repeat split; try discriminate; cbn; auto.
    + repeat split; try discriminate; cbn; auto.
  - destruct (contains "PRIVMSG" message).
    { destruct (_handle_privmsg utcnow from_millis on_message message) as [[e|]|x];
        cbn; repeat split; auto; discriminate. }
    destruct (contains "CLEARMSG" message).
    { destruct (_handle_clearmsg utcnow on_delete message) as [[e|]|x];
        cbn; repeat split; auto; discriminate. }
    destruct (contains "CLEARCHAT" message).
    { destruct (_handle_clearchat utcnow from_millis (on_ban c) message) as [[e|]|x];
        cbn; repeat split; auto; discriminate. }
    cbn. repeat split; auto; discriminate.
Qed.

End ClientEventProperties.

Section JoinAllProperties.
Import PyStr TwitchIRC.

(** X16: Joining a list of channels over an open connection always succeeds:
    afterwards the joined set is the old one together with the normalized
    names of the list, and exactly one JOIN line was sent for each
    normalized name that was not joined before, however often and in
    whatever spelling the list repeats it. *)
Theorem join_channels_joins_each_once (c : client) (channels : list string) :
  websocket_open c = true ->
  exists c' names,
    join_channels c channels = Ret c'
    /\ websocket_open c' = true
    /\ joined_channels c'
       = joined_channels c ∪ list_to_set (normalize_channel <$> channels)
    /\ sent c' = sent c ++ ((fun n => "JOIN " +:+ n) <$> names)
    /\ NoDup names
    /\ forall n, n ∈ names
         <-> n ∈ normalize_channel <$> channels /\ n ∉ joined_channels c.
Proof.
  revert c. induction channels as [|ch rest IH]; intros c Hopen.
  - exists c, []. split; [reflexivity|]. split; [exact Hopen|].
    split; [rewrite fmap_nil, list_to_set_nil, (right_id_L ∅ (∪)); reflexivity|].
    split; [rewrite app_nil_r; reflexivity|].
    split; [constructor|].
    intros n. split; [intros H; inversion H | intros [H _]; inversion H].
  - cbn [join_channels]. unfold join_channel.
    destruct (decide (normalize_channel ch ∈ joined_channels c)) as [Hin | Hnin].
    + cbn [bind].
      destruct (IH c Hopen) as (c' & names & Hj & Ho & Hset & Hsent & Hnd & Hmem).
      exists c', names. split; [exact Hj|]. split; [exact Ho|].
      split.
      { rewrite Hset, fmap_cons, list_to_set_cons. apply set_eq. intros x.
        rewrite !elem_of_union, elem_of_singleton.
        split; [tauto | intros [H | [-> | H]]; tauto]. }
      split; [exact Hsent|]. split; [exact Hnd|].
      intros n. rewrite Hmem, fmap_cons, elem_of_cons.
      split; [tauto|]. intros [[-> | H] Hn]; [contradiction | tauto].
    + unfold send. rewrite Hopen. cbn [bind websocket_open sent joined_channels on_ban].
      match goal with |- context [join_channels ?c1 rest] =>
        destruct (IH c1 eq_refl) as (c' & names & Hj & Ho & Hset & Hsent & Hnd & Hmem)
      end.
      cbn [websocket_open sent joined_channels on_ban] in Hset, Hsent, Hmem.
      exists c', (normalize_channel ch :: names).
      split; [exact Hj|]. split; [exact Ho|].
      split.
      { rewrite Hset, fmap_cons, list_to_set_cons. apply set_eq. intros x.
        rewrite !elem_of_union. tauto. }
      split; [rewrite Hsent, <- app_assoc; reflexivity|].
      split.
      { constructor; [|exact Hnd]. intros H. apply Hmem in H as [_ H].
        apply H, elem_of_union_l, elem_of_singleton. reflexivity. }
      intros n. rewrite fmap_cons, !elem_of_cons, Hmem, elem_of_union, elem_of_singleton.
      destruct (decide (n = normalize_channel ch)) as [-> | Hne]; tauto.
Qed.

End JoinAllProperties.

(** ** The configuration file (config_loader.py) *)

Section ConfigProperties.
Import PyStr ConfigLoader.






(** X20: A configuration that [load_config] returns can be run: at least one
    channel is enabled, every enabled channel has an identifier of two
    characters or more, which is its login whenever it has one, and the
    three scheduler values are at least 1. *)
Theorem load_config_usable (file : option (option yaml_data))
  (config : CollectorConfig) :
  load_config file = Ret config ->
  get_enabled_channels config <> []
  /\ Forall (fun ch => exists identifier,
                 get_identifier ch = Some identifier
                 /\ (2 <= String.length identifier)%nat
                 /\ (truthy (user_login ch) = true ->
                     user_login ch = Some identifier))
            (get_enabled_channels config)
  /\ 1 <= interval_minutes (scheduler config)
  /\ 1 <= reconnect_interval (scheduler config)
  /\ 1 <= max_reconnect_attempts (scheduler config).
Proof.
  unfold load_config. destruct (load file) as [c|e]; cbn [bind]; [|discriminate].
  destruct (validate c) eqn:Hv; cbn [negb]; [|discriminate].
  intros [= <-]. unfold validate in Hv.
  destruct (channels c) as [|c0 cs] eqn:Hch; [discriminate|].
  destruct (get_enabled_channels c) as [|e0 es] eqn:Hen; [discriminate|].
  destruct (existsb _ (e0 :: es)) eqn:Hex; [discriminate|].
  destruct (interval_minutes (scheduler c) <? 1) eqn:H1; [discriminate|].
  destruct (reconnect_interval (scheduler c) <? 1) eqn:H2; [discriminate|].
  destruct (max_reconnect_attempts (scheduler c) <? 1) eqn:H3; [discriminate|].
  split; [discriminate|]. split; [|lia].
  apply Forall_forall. intros ch Hin.
  assert (Hbad : bad_identifier (get_identifier ch) = false).
  { destruct (bad_identifier (get_identifier ch)) eqn:Hb; [|reflexivity].
    assert (existsb (fun ch => bad_identifier (get_identifier ch)) (e0 :: es) = true)
      as Hyes; [|congruence].
    apply existsb_exists. exists ch. split; [|exact Hb].
    apply list_elem_of_In. exact Hin. }
  unfold bad_identifier in Hbad. apply orb_false_iff in Hbad as [Ht Hlen].
  destruct (get_identifier ch) as [identifier|] eqn:Hid; [|discriminate].
  exists identifier. split; [reflexivity|]. split.
  - apply Nat.ltb_ge in Hlen. exact Hlen.
  - intros Hl. unfold get_identifier in Hid. rewrite Hl in Hid. exact Hid.
Qed.


End ConfigProperties.

(** ** The Helix client (twitch_client.py) *)

Section HelixProperties.
Import PyStr TokenManager TwitchClient.

Context {stream_json stream : Type}.
Variable _parse_streams : list stream_json -> list stream.

Lemma fetch_unauthorized (o : http_outcome (streams_body stream_json)) :
  fetch o = inl (HTTPError 401) <-> exists json, o = Response 401 json.
Proof.
  split.
  - destruct o as [status_code json| |e]; cbn [fetch]; try discriminate.
    destruct (is_error_status status_code); [|destruct json; discriminate].
    intros [= ->]. eauto.
  - intros [json ->]. reflexivity.
Qed.

Lemma fetch_streams (o : http_outcome (streams_body stream_json))
  (streams : list stream_json) :
  fetch o = inr streams ->
  exists status_code body,
    o = Response status_code (Some body)
    /\ is_error_status status_code = false
    /\ streams = default [] (data body).
Proof.
  destruct o as [status_code json| |e]; cbn [fetch]; try discriminate.
  destruct (is_error_status status_code) eqn:He; [discriminate|].
  destruct json as [body|]; [|discriminate].
  intros [= <-]. eauto.
Qed.

(** X22: [get_streams] asks again once, and only after a 401.  It sends the
    request with the token it holds; a token request and a second
    request follow exactly when the answer is a 401, the second one only
    if a new token was obtained and with that token.  The client's token
    changes only to a token the token endpoint has just issued, and a
    list of streams is returned only from an answer without error status
    to a request carrying the token the client holds afterwards. *)
Theorem get_streams_retries_once_on_401 (w : endpoints) (h : list request)
  (access_token : string) (user_id : option string) :
  let param := user_id_param user_id in
  let r := get_streams _parse_streams w h access_token user_id in
  exists sent,
    snd r = h ++ GetStreams access_token param :: sent
    /\ (sent = [] \/ sent = [PostToken]
        \/ sent = [PostToken; GetStreams (snd (fst r)) param])
    /\ (sent <> [] <->
        exists json, http_get_streams w h access_token param = Response 401 json)
    /\ (snd (fst r) <> access_token ->
        sent = [PostToken; GetStreams (snd (fst r)) param]
        /\ _get_app_access_token
             (http_post_token w (h ++ [GetStreams access_token param]))
           = Ret (snd (fst r)))
    /\ (forall streams, fst (fst r) = Ret streams ->
        exists asked status_code body,
          http_get_streams w asked (snd (fst r)) param
          = Response status_code (Some body)
          /\ is_error_status status_code = false
          /\ streams = _parse_streams (default [] (data body))).
Proof.
  cbv zeta. unfold get_streams.
  set (param := user_id_param user_id).
  pose proof (fetch_unauthorized (http_get_streams w h access_token param)) as H401.
  destruct (fetch (http_get_streams w h access_token param))
    as [[status_code | e] | streams] eqn:Hfirst.
  - destruct (status_code =? 401) eqn:Hs.
    + apply Z.eqb_eq in Hs. subst status_code.
      destruct (proj1 H401 eq_refl) as [json Hjson].
      destruct (_get_app_access_token _) as [new_token | e] eqn:Hpost.
      * destruct (fetch (http_get_streams w _ new_token param))
          as [[status2 | e2] | streams2] eqn:Hsecond; cbn [fst snd];
          exists [PostToken; GetStreams new_token param];
          (split; [rewrite <- !app_assoc; reflexivity|]);
          (split; [auto|]); (split; [split; [eauto | discriminate]|]);
          (split; [auto|]); intros streams; try discriminate.
        intros [= <-].
        destruct (fetch_streams _ _ Hsecond) as (status2 & body & Ho & He & Hd).
        exists ((h ++ [GetStreams access_token param]) ++ [PostToken]), status2, body.
        subst streams2. auto.
      * cbn [fst snd]. exists [PostToken].
        split; [rewrite <- !app_assoc; reflexivity|].
        split; [auto|]. split; [split; [eauto | discriminate]|].
        split; [congruence | discriminate].
    + cbn [fst snd]. exists [].
      split; [reflexivity|]. split; [auto|].
      split.
      { split; [congruence|]. intros Hj. apply H401 in Hj.
        injection Hj as ->. discriminate. }
      split; [congruence | discriminate].
  - cbn [fst snd]. exists [].
    split; [reflexivity|]. split; [auto|].
    split.
    { split; [congruence|]. intros Hj. apply H401 in Hj. discriminate. }
    split; [congruence | discriminate].
  - cbn [fst snd]. exists [].
    split; [reflexivity|]. split; [auto|].
    split.
    { split; [congruence|]. intros Hj. apply H401 in Hj. discriminate. }
    split; [congruence|].
    intros streams' [= <-].
    destruct (fetch_streams _ _ Hfirst) as (status_code & body & Ho & He & Hd).
    exists h, status_code, body. subst streams. auto.
Qed.

End HelixProperties.

(** ** Queries and the bulk save (database.py) *)

Section BulkSaveProperties.
Import Database DatabaseQueries.


Lemma count_key_absent {row : Type} (col : row -> option string) (key : string)
  (table : list row) :
  count_key col key table = 0%nat <-> Some key ∉ col <$> table.
Proof.
  unfold count_key. induction table as [|r table IH].
  - split; [intros _ H; inversion H | reflexivity].
  - rewrite filter_cons, fmap_cons, not_elem_of_cons.
    destruct (decide (col r = Some key)) as [Hk|Hk].
    + cbn [length]. split; [discriminate | intros [H _]; congruence].
    + rewrite IH. split; [intros H; split; [congruence | exact H] | tauto].
Qed.

Lemma count_key_nodup {row : Type} (col : row -> option string) (key : string)
  (table : list row) :
  NoDup (col <$> table) -> (count_key col key table <= 1)%nat.
Proof.
  induction table as [|r table IH]; [cbn; lia|].
  rewrite fmap_cons, NoDup_cons. intros [Hr Hnd].
  change (r :: table) with ([r] ++ table).
  unfold count_key. rewrite filter_app, length_app, filter_cons, filter_nil.
  fold (count_key col key table).
  destruct (decide (col r = Some key)) as [Hk|Hk]; cbn [length].
  - rewrite Hk in Hr. apply count_key_absent in Hr. lia.
  - specialize (IH Hnd). lia.
Qed.





(** X24: A batch that carries a new id twice is rejected as a whole: the
    commit raises [IntegrityError] and no message of the batch is
    stored, not even the ones with other ids. *)
Theorem bulk_save_rejects_repeated_id (table batch : list chat_message)
  (key : string) :
  count_key cm_id key table = 0%nat ->
  (2 <= count_key cm_id key batch)%nat ->
  bulk_save_chat_messages table batch = (Raise IntegrityError, table).
Proof.
  intros Hfresh Htwice. unfold bulk_save_chat_messages.
  destruct batch as [|m rest] eqn:Hb; [cbn in Htwice; lia|].
  rewrite <- Hb in *.
  set (existing := cm_id <$> filter (fun r => id_in (cm_id <$> batch) r = true) table).
  set (new := filter (fun m => cm_id m ∉ existing) batch).
  assert (Hcount : count_key cm_id key new = count_key cm_id key batch).
  { unfold count_key, new. f_equal. apply list_filter_filter_l.
    intros x Hx. rewrite Hx. apply count_key_absent in Hfresh.
    intros Hin. apply Hfresh. unfold existing in Hin.
    apply list_elem_of_fmap in Hin as (r & Hr & Hin).
    apply list_elem_of_filter in Hin as [_ Hin].
    apply list_elem_of_fmap. eauto. }
  destruct new as [|n0 new'] eqn:Hnew; [cbn in Hcount; lia|].
  rewrite <- Hnew in *.
  rewrite (bool_decide_eq_false_2 (NoDup (cm_id <$> new))).
  - rewrite andb_false_r. reflexivity.
  - intros Hnd. pose proof (count_key_nodup cm_id key new Hnd). lia.
Qed.

End BulkSaveProperties.

(** ** Streams and the collector's view of them (database.py, collector.py) *)

Section StreamProperties.
Import Database DatabaseQueries.






End StreamProperties.

Section CollectorFlow.
Import Database DatabaseQueries Collector.

Variable get_streams : option string -> result (list stream_info).

Lemma get_stream_id_set (c : collector) (user other stream_id : option string) :
  get_stream_id (set_stream_id c user stream_id) other
  = if decide (user = other) then stream_id else get_stream_id c other.
Proof.
  unfold get_stream_id, set_stream_id. cbn [channel_streams].
  destruct (decide (user = other)) as [->|Hne].
  - rewrite lookup_insert_eq. reflexivity.
  - rewrite lookup_insert_ne by exact Hne. reflexivity.
Qed.



(** X28: A deletion, a ban and an unban never poll the stream status and never
    change the known stream ids; each leaves the stream table, the chat
    messages and the tables of the other two kinds of events as they
    are, and adds at most one row to its own table. *)
Theorem moderation_events_touch_own_table (c : collector)
  (deleted : deleted_event) (ban unban : moderation_event) :
  let d := fst (_handle_delete c deleted) in
  let b := fst (_handle_ban c ban) in
  let u := fst (_handle_unban c unban) in
  (polled d = polled c /\ polled b = polled c /\ polled u = polled c)
  /\ (channel_streams d = channel_streams c
      /\ channel_streams b = channel_streams c
      /\ channel_streams u = channel_streams c)
  /\ (streams (db d) = streams (db c) /\ chat_messages (db d) = chat_messages (db c)
      /\ user_banned_events (db d) = user_banned_events (db c)
      /\ user_unbanned_events (db d) = user_unbanned_events (db c)
      /\ (length (message_deleted_events (db d))
          <= S (length (message_deleted_events (db c))))%nat)
  /\ (streams (db b) = streams (db c) /\ chat_messages (db b) = chat_messages (db c)
      /\ message_deleted_events (db b) = message_deleted_events (db c)
      /\ user_unbanned_events (db b) = user_unbanned_events (db c)
      /\ (length (user_banned_events (db b))
          <= S (length (user_banned_events (db c))))%nat)
  /\ (streams (db u) = streams (db c) /\ chat_messages (db u) = chat_messages (db c)
      /\ message_deleted_events (db u) = message_deleted_events (db c)
      /\ user_banned_events (db u) = user_banned_events (db c)
      /\ (length (user_unbanned_events (db u))
          <= S (length (user_unbanned_events (db c))))%nat).
Proof.
  cbv zeta. unfold _handle_delete, _handle_ban, _handle_unban.
  unfold save_banned_event, save_unbanned_event, save_moderation_event,
    save_deleted_event.
  destruct (truthy (get_stream_id c (de_broadcaster_user_id deleted)));
    destruct (truthy (get_stream_id c (me_broadcaster_user_id ban)));
    destruct (truthy (get_stream_id c (me_broadcaster_user_id unban)));
    repeat match goal with
           | |- context [query_first ?f ?k ?t] => destruct (query_first f k t)
           | |- context [deleted_event_not_null ?e] =>
               destruct (deleted_event_not_null e)
           | |- context [moderation_event_not_null ?e] =>
               destruct (moderation_event_not_null e)
           end;
    cbn [fst snd polled channel_streams db streams chat_messages
         message_deleted_events user_banned_events user_unbanned_events
         with_deleted with_banned with_unbanned];
    rewrite ?length_app; cbn [length]; repeat split; lia.
Qed.

End CollectorFlow.

(** ** Dispatch order and the login handshake (twitch_irc.py) *)

Section DispatchProperties.
Import PyStr TwitchIRC TwitchIRCEvents.

Context {datetime : Type}.
Variable utcnow : nat -> datetime.
Variable from_millis : Z -> result datetime.

(** X15: The dispatcher goes by the first keyword it finds anywhere in the
    line, in the order chat, deletion, ban.  A line that contains
    [PRIVMSG] reaches the chat callback only, also when it is a deletion
    or a ban whose text mentions [PRIVMSG]; a line without [PRIVMSG]
    that contains [CLEARMSG] reaches the deletion callback only. *)
Theorem dispatch_goes_by_first_keyword (on_message on_delete : bool) (c : client)
  (message : string) :
  startswith "PING" message = false ->
  let calls := snd (handle_line utcnow from_millis on_message on_delete c message) in
  (contains "PRIVMSG" message = true ->
     Forall (fun cb => exists e, cb = OnMessage e) calls)
  /\ (contains "PRIVMSG" message = false -> contains "CLEARMSG" message = true ->
        Forall (fun cb => exists e, cb = OnDelete e) calls)
  /\ (contains "PRIVMSG" message = false -> contains "CLEARMSG" message = false ->
        Forall (fun cb => exists e, cb = OnBan e) calls).
Proof.
  intros Hping. cbv zeta. unfold handle_line, TwitchIRC._handle_message.
  rewrite Hping.
  split; [|split].
  - intros ->.
    destruct (_handle_privmsg utcnow from_millis on_message message) as [[e|]|x];
      cbn; repeat constructor; eauto.
  - intros -> ->.
    destruct (_handle_clearmsg utcnow on_delete message) as [[e|]|x];
      cbn; repeat constructor; eauto.
  - intros -> ->.
    destruct (contains "CLEARCHAT" message); [|constructor].
    destruct (_handle_clearchat utcnow from_millis (on_ban c) message) as [[e|]|x];
      cbn; repeat constructor; eauto.
Qed.

End DispatchProperties.

Section AuthProperties.
Import PyStr TwitchIRC TwitchIRCAuth.

Lemma await_welcome_skips (tm : option token_manager) (access_token : string)
  (before rest : list string) (closing : exn) :
  Forall (fun r => is_welcome r = false /\ is_login_failure r = false) before ->
  await_welcome tm access_token (before ++ rest) closing
  = await_welcome tm access_token rest closing.
Proof.
  induction 1 as [|r before [Hw Hf] _ IH]; [reflexivity|].
  cbn [app await_welcome]. rewrite Hw, Hf. exact IH.
Qed.

(** X17: Over an open connection the handshake always sends the same three
    lines in the same order: the capability request, [PASS] with the
    [oauth:] prefix, then [NICK].  The token in [PASS] is the one the
    pre-check returned, or the token the client was built with when
    there is no token manager or the pre-check raised: a failing
    pre-check never stops the login. *)
Theorem authenticate_sends_pass_before_nick (tm : option token_manager)
  (access_token : string) (c : client) (incoming : list string) (closing : exn) :
  websocket_open c = true ->
  let r := _authenticate tm access_token c incoming closing in
  sent (snd r)
  = sent c ++ ["CAP REQ :twitch.tv/tags twitch.tv/commands";
               "PASS oauth:" +:+ login_token tm access_token;
               "NICK justinfan12345"]
  /\ joined_channels (snd r) = joined_channels c
  /\ (tm = None -> login_token tm access_token = access_token)
  /\ (forall m e, tm = Some m -> precheck m = Raise e ->
        login_token tm access_token = access_token).
Proof.
  intros Hopen. cbv zeta. unfold _authenticate, send. rewrite Hopen.
  cbn [bind websocket_open sent joined_channels on_ban].
  destruct (await_welcome _ _ _ _) as [o t]. cbn [snd sent joined_channels].
  split; [rewrite <- !app_assoc; reflexivity|].
  split; [reflexivity|].
  split.
  - intros ->. reflexivity.
  - intros m e -> He. unfold login_token. rewrite He. reflexivity.
Qed.

(** X18: What decides the login is the first response that is a welcome or a
    failure notice.  A welcome makes [_authenticate] return with the
    login token.  A failure notice never lets it return: without token
    manager, or when the refresh raises [ValueError], it raises the
    [ValueError] of a failed login and keeps the token; when the refresh
    returns new tokens, it takes the new access token and raises the
    [ConnectionError] that asks for a reconnect.  When no response
    decides, the exception of [recv] gets out. *)
Theorem authenticate_outcome (tm : option token_manager) (access_token : string)
  (c : client) (before after : list string) (closing : exn) :
  websocket_open c = true ->
  Forall (fun r => is_welcome r = false /\ is_login_failure r = false) before ->
  let token := login_token tm access_token in
  (forall response,
     is_welcome response = true ->
     fst (_authenticate tm access_token c (before ++ response :: after) closing)
     = (Authenticated, token))
  /\ (forall response,
        is_welcome response = false -> is_login_failure response = true ->
        let r := fst (_authenticate tm access_token c
                        (before ++ response :: after) closing) in
        fst r <> Authenticated
        /\ (tm = None -> r = (LoginFailed, token))
        /\ (forall m, tm = Some m ->
              match refresh m with
              | Ret (new_access_token, _) => r = (ReconnectRequired, new_access_token)
              | Raise ValueError => r = (LoginFailed, token)
              | Raise e => r = (AuthRaised e, token)
              end))
  /\ fst (_authenticate tm access_token c before closing)
     = (AuthRaised closing, token).
Proof.
  intros Hopen Hbefore. cbv zeta.
  assert (Hrun : forall incoming,
            fst (_authenticate tm access_token c incoming closing)
            = await_welcome tm (login_token tm access_token) incoming closing).
  { intros incoming. unfold _authenticate, send. rewrite Hopen.
    cbn [bind websocket_open sent joined_channels on_ban].
    destruct (await_welcome _ _ _ _) as [o t]. reflexivity. }
  split; [|split].
  - intros response Hw. rewrite Hrun, (await_welcome_skips _ _ _ _ _ Hbefore).
    cbn [await_welcome]. rewrite Hw. reflexivity.
  - intros response Hw Hf. rewrite Hrun, (await_welcome_skips _ _ _ _ _ Hbefore).
    cbn [await_welcome]. rewrite Hw, Hf.
    destruct tm as [m|].
    + split.
      * destruct (refresh m) as [[a r]|e]; [discriminate|]. destruct e; discriminate.
      * split; [discriminate|]. intros m' [= <-].
        destruct (refresh m) as [[a r]|e]; [reflexivity|]. destruct e; reflexivity.
    + split; [discriminate|]. split; [reflexivity | discriminate].
  - rewrite Hrun. rewrite <- (app_nil_r before).
    rewrite (await_welcome_skips _ _ _ _ _ Hbefore). reflexivity.
Qed.

End AuthProperties.

(** ** Instances on concrete inputs *)

Lemma refresh_returns_saved_pair_witness :
  snd (TokenManager.refresh_access_token
         (fixed_world 401 None (TokenManager.Response 200 (Some sample_tokens)))
         [] "refresh-0")
  = [TokenManager.HttpRefresh "refresh-0"; TokenManager.EnvWrite "access-1" "refresh-1"].
Proof.
  exact (proj2 (proj2 (proj2
    (refresh_returns_saved_pair
       (fixed_world 401 None (TokenManager.Response 200 (Some sample_tokens)))
       [] "refresh-0" "access-1" "refresh-1" eq_refl)))).
Defined.

Lemma one_refresh_per_caller_witness :
  TokenManager.refresh_calls
    (TokenManager.history
       (TokenManager.run rotating_world [0; 1; 0; 1; 0; 0; 1; 1]%nat
          (TokenManager.start [("access-0", "refresh-0"); ("access-0", "refresh-0")])))
  = 2%nat.
Proof.
  apply (one_refresh_per_caller rotating_world
           [("access-0", "refresh-0"); ("access-0", "refresh-0")]
           [0; 1; 0; 1; 0; 0; 1; 1]%nat).
  - intros h access. reflexivity.
  - repeat constructor; discriminate.
  - vm_compute. reflexivity.
Defined.

Lemma pong_same_payload_witness :
  TwitchIRC._handle_message sample_utcnow sample_from_millis
    sample_handler sample_handler sample_client "PING :tmi.twitch.tv"
  = ({| TwitchIRC.websocket_open := true;
        TwitchIRC.sent := ["PONG :tmi.twitch.tv"];
        TwitchIRC.joined_channels := ∅;
        TwitchIRC.on_ban := true |}, []).
Proof.
  exact (pong_same_payload sample_utcnow sample_from_millis sample_handler
           sample_handler sample_client " :tmi.twitch.tv" eq_refl eq_refl).
Defined.

Lemma unescape_follows_rules_witness :
  TwitchIRC.unescape "rip\sbozo\:\sbye" = Reference.unescape_by_the_rules "rip\sbozo\:\sbye".
Proof.
  exact (unescape_follows_rules "rip\sbozo\:\sbye" eq_refl).
Defined.

Lemma parse_tags_lookup_witness :
  exists tag_string item raw,
    TwitchIRC.tag_pattern_match
      "@login=ronni;room-id=12 :tmi.twitch.tv CLEARMSG #dallas :HeyGuys"
    = Some tag_string
    /\ item ∈ PyStr.split ";" tag_string
    /\ PyStr.split_once "=" item = Some ("login", raw)
    /\ "ronni" = TwitchIRC.unescape raw.
Proof.
  apply (parse_tags_lookup
           "@login=ronni;room-id=12 :tmi.twitch.tv CLEARMSG #dallas :HeyGuys"
           "login" "ronni").
  vm_compute. reflexivity.
Defined.

Lemma clearchat_reads_channel_and_user_witness :
  TwitchIRC.clearchat_search
    "@room-id=12;target-user-id=99 :tmi.twitch.tv CLEARCHAT #dallas :ronni"
  = Some ("dallas", Some "ronni").
Proof.
  refine (proj1 (clearchat_reads_channel_and_user sample_utcnow sample_from_millis
                   "@room-id=12;target-user-id=99 :tmi.twitch.tv CLEARCHAT #dallas :ronni"
                   "dallas" "ronni" "" eq_refl _ eq_refl _ eq_refl (or_introl eq_refl)));
    discriminate.
Defined.

Lemma privmsg_reads_channel_and_text_witness :
  TwitchIRCEvents.privmsg_search
    "@id=abc;room-id=12 :ronni!ronni@ronni.tmi.twitch.tv PRIVMSG #dallas :hello world"
  = Some ("dallas", "hello world").
Proof.
  refine (proj1 (privmsg_reads_channel_and_text sample_utcnow sample_from_millis
                   "@id=abc;room-id=12 :ronni!ronni@ronni.tmi.twitch.tv PRIVMSG #dallas :hello world"
                   "dallas" "hello world" "" eq_refl _ eq_refl _ eq_refl
                   (or_introl eq_refl)));
    discriminate.
Defined.

Lemma join_channels_joins_each_once_witness :
  exists c' names,
    TwitchIRC.join_channels sample_client ["Dallas"; "#dallas"; "twitch"] = Ret c'
    /\ TwitchIRC.websocket_open c' = true
    /\ TwitchIRC.joined_channels c'
       = TwitchIRC.joined_channels sample_client
         ∪ list_to_set (TwitchIRC.normalize_channel <$> ["Dallas"; "#dallas"; "twitch"])
    /\ TwitchIRC.sent c'
       = TwitchIRC.sent sample_client ++ ((fun n => "JOIN " +:+ n) <$> names)
    /\ NoDup names
    /\ forall n, n ∈ names
         <-> n ∈ TwitchIRC.normalize_channel <$> ["Dallas"; "#dallas"; "twitch"]
             /\ n ∉ TwitchIRC.joined_channels sample_client.
Proof.
  exact (join_channels_joins_each_once sample_client ["Dallas"; "#dallas"; "twitch"]
           eq_refl).
Defined.

Lemma dispatch_goes_by_first_keyword_witness :
  Forall (fun cb => exists e, cb = TwitchIRC.OnMessage e)
    (snd (TwitchIRCEvents.handle_line sample_utcnow sample_from_millis true true
            sample_client
            "@login=ronni;target-msg-id=abc :tmi.twitch.tv CLEARMSG #dallas :no PRIVMSG")).
Proof.
  exact (proj1 (dispatch_goes_by_first_keyword sample_utcnow sample_from_millis
                  true true sample_client
                  "@login=ronni;target-msg-id=abc :tmi.twitch.tv CLEARMSG #dallas :no PRIVMSG"
                  eq_refl) eq_refl).
Defined.

Lemma authenticate_sends_pass_before_nick_witness :
  TwitchIRC.sent
    (snd (TwitchIRCAuth._authenticate (Some sample_token_manager) "access-0"
            sample_client [":tmi.twitch.tv 001 justinfan12345 :Welcome, GLHF!"]
            OtherException))
  = ["CAP REQ :twitch.tv/tags twitch.tv/commands"; "PASS oauth:access-1";
     "NICK justinfan12345"].
Proof.
  exact (proj1 (authenticate_sends_pass_before_nick (Some sample_token_manager)
                  "access-0" sample_client
                  [":tmi.twitch.tv 001 justinfan12345 :Welcome, GLHF!"]
                  OtherException eq_refl)).
Defined.

Lemma authenticate_outcome_witness :
  fst (TwitchIRCAuth._authenticate (Some sample_token_manager) "access-0" sample_client
         ([":tmi.twitch.tv CAP * ACK :twitch.tv/tags twitch.tv/commands"]
          ++ ":tmi.twitch.tv NOTICE * :Login authentication failed" :: [])
         OtherException)
  = (TwitchIRCAuth.ReconnectRequired, "access-2").
Proof.
  assert (Hbefore : Forall (fun r => TwitchIRCAuth.is_welcome r = false
                                     /\ TwitchIRCAuth.is_login_failure r = false)
                      [":tmi.twitch.tv CAP * ACK :twitch.tv/tags twitch.tv/commands"]).
  { repeat constructor. }
  destruct (authenticate_outcome (Some sample_token_manager) "access-0" sample_client
              [":tmi.twitch.tv CAP * ACK :twitch.tv/tags twitch.tv/commands"] []
              OtherException eq_refl Hbefore) as (_ & H & _).
  destruct (H ":tmi.twitch.tv NOTICE * :Login authentication failed" eq_refl eq_refl)
    as (_ & _ & Hm).
  exact (Hm sample_token_manager eq_refl).
Defined.


Lemma load_config_usable_witness :
  ConfigLoader.load_config (Some (Some sample_yaml)) = Ret sample_config
  /\ 1 <= ConfigLoader.interval_minutes (ConfigLoader.scheduler sample_config).
Proof.
  split; [reflexivity|].
  exact (proj1 (proj2 (proj2
    (load_config_usable (Some (Some sample_yaml)) sample_config eq_refl)))).
Defined.


Lemma bulk_save_rejects_repeated_id_witness :
  DatabaseQueries.bulk_save_chat_messages []
    [sample_stored_message; sample_second_message; sample_second_message]
  = (Raise IntegrityError, []).
Proof.
  apply (bulk_save_rejects_repeated_id []
           [sample_stored_message; sample_second_message; sample_second_message]
           "msg-2").
  - reflexivity.
  - vm_compute. lia.
Defined.



(** ** Joining the configured channels (collector.py) *)

Section CollectorJoinProperties.
Import Database DatabaseQueries Collector CollectorJoin.

Variable get_streams : option string -> result (list stream_info).

Lemma join_one_spec (c : collector) (user_id : string) :
  let r := join_one get_streams c user_id in
  snd r = status_known get_streams user_id
  /\ polled (fst r) = polled c ++ [Some user_id]
  /\ (forall other, other <> Some user_id ->
        get_stream_id (fst r) other = get_stream_id c other)
  /\ (snd r = true ->
        get_stream_id (fst r) (Some user_id)
        = match get_streams (Some user_id) with
          | Ret (stream_info :: _) => si_stream_id stream_info
          | _ => None
          end).
Proof.
  cbv zeta. unfold join_one, status_known.
  destruct (get_streams (Some user_id)) as [[|stream_info rest]|x]; cbn [fst snd].
  - split; [reflexivity|]. split; [reflexivity|]. split.
    + intros other Hne. rewrite get_stream_id_set, decide_False by congruence.
      reflexivity.
    + intros _. rewrite get_stream_id_set, decide_True by reflexivity. reflexivity.
  - unfold save_stream.
    destruct (query_first _ _ _); destruct (stream_not_null stream_info);
      cbn [fst snd]; (split; [reflexivity|]); (split; [reflexivity|]);
      (split; [|try discriminate]);
      try (intros other Hne; rewrite ?get_stream_id_set, ?decide_False by congruence;
           reflexivity);
      intros _; rewrite get_stream_id_set, decide_True by reflexivity; reflexivity.
  - split; [reflexivity|]. split; [reflexivity|]. split; [reflexivity | discriminate].
Qed.

Lemma join_all_other (channel_map : list (string * string)) :
  forall (c : collector) (other : option string),
    other ∉ (Some ∘ fst <$> channel_map) ->
    get_stream_id (fst (_join_all_channels get_streams c channel_map)) other
    = get_stream_id c other.
Proof.
  induction channel_map as [|[user_id user_login] rest IH]; intros c other Hnot;
    [reflexivity|].
  rewrite fmap_cons, not_elem_of_cons in Hnot. destruct Hnot as [Hne Hnot].
  cbn [_join_all_channels].
  destruct (join_one_spec c user_id) as (_ & _ & Hother & _).
  destruct (join_one get_streams c user_id) as [c1 joined]. cbn [fst snd] in *.
  specialize (IH c1 other Hnot).
  destruct (_join_all_channels get_streams c1 rest) as [c2 logins]. cbn [fst] in *.
  rewrite IH. apply Hother. exact Hne.
Qed.

(** X29: Joining the configured channels polls every channel once, in the
    order of the map, and hands to [join_channels] the logins of exactly
    the channels whose status could be established: a channel whose poll
    or whose stream save raises is left out, and does not stop the
    others.  Every channel handed over has its stream id recorded: the
    id of the first stream reported when it is live, none when it is
    not. *)
Theorem join_all_channels_skips_failures (c : collector)
  (channel_map : list (string * string)) :
  NoDup (fst <$> channel_map) ->
  let r := _join_all_channels get_streams c channel_map in
  polled (fst r) = polled c ++ (Some ∘ fst <$> channel_map)
  /\ snd r
     = snd <$> filter (fun p => status_known get_streams (fst p) = true) channel_map
  /\ forall user_id user_login,
       (user_id, user_login) ∈ channel_map ->
       status_known get_streams user_id = true ->
       get_stream_id (fst r) (Some user_id)
       = match get_streams (Some user_id) with
         | Ret (stream_info :: _) => si_stream_id stream_info
         | _ => None
         end.
Proof.
  cbv zeta. revert c.
  induction channel_map as [|[user_id user_login] rest IH]; intros c Hnd.
  - cbn. rewrite app_nil_r. split; [reflexivity|]. split; [reflexivity|].
    intros u l H. inversion H.
  - rewrite fmap_cons, NoDup_cons in Hnd. cbn [fst] in Hnd. destruct Hnd as [Hfresh Hnd].
    cbn [_join_all_channels].
    destruct (join_one_spec c user_id) as (Hjoined & Hpoll & Hother & Hid).
    pose proof (join_all_other rest) as Hkeep.
    destruct (join_one get_streams c user_id) as [c1 joined]. cbn [fst snd] in *.
    specialize (IH c1 Hnd). specialize (Hkeep c1).
    destruct (_join_all_channels get_streams c1 rest) as [c2 logins].
    cbn [fst snd] in *. destruct IH as (IHpoll & IHlogins & IHid).
    split.
    { rewrite IHpoll, Hpoll, fmap_cons, <- app_assoc. reflexivity. }
    split.
    { rewrite filter_cons. cbn [fst]. rewrite <- Hjoined, IHlogins.
      destruct joined.
      - rewrite decide_True by reflexivity. reflexivity.
      - rewrite decide_False by discriminate. reflexivity. }
    intros u l Hin Hknown. apply elem_of_cons in Hin as [[= -> ->] | Hin].
    + rewrite Hkeep.
      * apply Hid. rewrite Hjoined. exact Hknown.
      * intros Habs. apply Hfresh. apply list_elem_of_fmap in Habs as (p & Hp & Hpin).
        cbn in Hp. injection Hp as ->. apply list_elem_of_fmap. eauto.
    + exact (IHid u l Hin Hknown).
Qed.

End CollectorJoinProperties.

Lemma join_all_channels_skips_failures_witness :
  snd (CollectorJoin._join_all_channels live_streams empty_collector
         [("1234", "dallas"); ("77", "twitch")])
  = ["dallas"; "twitch"].
Proof.
  refine (proj1 (proj2 (join_all_channels_skips_failures live_streams empty_collector
                          [("1234", "dallas"); ("77", "twitch")] _))).
  apply (bool_decide_unpack _). vm_compute. exact I.
Defined.

(** ** Connecting with retries (collector.py) *)

Section ConnectProperties.
Import CollectorConnect.

Variable connect : nat -> string -> connect_outcome.
Variable get_valid_access_token : nat -> result string.

Lemma attempts_spec (remaining : nat) :
  forall (attempt : nat) (access_token : string),
    let r := attempts connect get_valid_access_token remaining attempt access_token in
    (length (snd r) <= remaining)%nat
    /\ (remaining <> O -> head (snd r) = Some access_token
                          /\ forall t, fst r <> Exhausted t)
    /\ forall (k : nat) (t : string),
         snd r !! k = Some t ->
         match connect (attempt + k) t with
         | Connected => S k = length (snd r) /\ fst r = Broke t
         | ConnectionErrorRaised =>
             S k = length (snd r) /\ fst r = Raised ConnectionErrorRaised
         | ReconnectAsked =>
             match get_valid_access_token (attempt + k) with
             | Ret new_token =>
                 (S k = remaining /\ S k = length (snd r)
                  /\ fst r = Raised ReconnectAsked)
                 \/ (S k <> remaining /\ snd r !! S k = Some new_token)
             | Raise e =>
                 S k = length (snd r)
                 /\ (fst r = Raised ReconnectAsked /\ S k = remaining
                     \/ fst r = TokenRaised e /\ S k <> remaining)
             end
         | ExceptionRaised e =>
             (S k = remaining /\ S k = length (snd r)
              /\ fst r = Raised (ExceptionRaised e))
             \/ (S k <> remaining /\ snd r !! S k = Some t)
         end.
Proof.
  induction remaining as [|remaining IH]; intros attempt access_token; cbv zeta.
  - cbn. split; [lia|]. split; [congruence|]. intros k t H. destruct k; discriminate.
  - cbn [attempts].
    assert (Hlast : forall k t, [access_token] !! k = Some t -> k = O /\ t = access_token).
    { intros [|k] t H; [injection H as <-; auto | destruct k; discriminate]. }
    destruct remaining as [|remaining'] eqn:Hrem.
    + (* the last attempt *)
      rewrite bool_decide_eq_true_2 by reflexivity. cbn [negb].
      destruct (connect attempt access_token) as [| | |e] eqn:Hc; cbn [fst snd length];
        (split; [lia|]); (split; [intros _; split; [reflexivity | discriminate]|]);
        intros k t Hk; apply Hlast in Hk as [-> ->]; rewrite Nat.add_0_r, Hc; auto.
      destruct (get_valid_access_token attempt); auto.
    + rewrite bool_decide_eq_false_2 by discriminate. cbn [negb].
      rewrite <- Hrem in *.
      assert (Hne : 1%nat <> S remaining) by lia.
      assert (Hpos : remaining <> O) by lia.
      destruct (connect attempt access_token) as [| | |e] eqn:Hc.
      * cbn [fst snd length]. split; [lia|].
        split; [intros _; split; [reflexivity | discriminate]|].
        intros k t Hk. apply Hlast in Hk as [-> ->]. rewrite Nat.add_0_r, Hc. auto.
      * destruct (get_valid_access_token attempt) as [new_token|e] eqn:Hg.
        -- specialize (IH (S attempt) new_token). cbv zeta in IH.
           destruct (attempts connect get_valid_access_token remaining (S attempt)
                       new_token) as [o tokens].
           cbn [fst snd length] in *. destruct IH as (Hlen & Hhead & Hall).
           destruct (Hhead Hpos) as [Hh Hex].
           split; [lia|]. split; [intros _; split; [reflexivity | exact Hex]|].
           intros [|k] t Hk.
           ++ injection Hk as <-. rewrite Nat.add_0_r, Hc, Hg. right.
              split; [exact Hne|]. cbn. destruct tokens; [discriminate|].
              injection Hh as ->. reflexivity.
           ++ cbn in Hk. specialize (Hall k t Hk).
              replace (attempt + S k)%nat with (S attempt + k)%nat by lia.
              destruct (connect (S attempt + k) t) as [| | |e'].
              ** destruct Hall as [H1 H2]. split; [lia | exact H2].
              ** destruct (get_valid_access_token (S attempt + k)) as [t'|e'].
                 --- destruct Hall as [(H1 & H2 & H3) | (H1 & H2)];
                       [left; repeat split; [lia | lia | exact H3]
                       | right; split; [lia | exact H2]].
                 --- destruct Hall as [H1 [[H2 H3] | [H2 H3]]];
                       (split; [lia|]); [left | right]; split; auto; lia.
              ** destruct Hall as [H1 H2]. split; [lia | exact H2].
              ** destruct Hall as [(H1 & H2 & H3) | (H1 & H2)];
                   [left; repeat split; [lia | lia | exact H3]
                   | right; split; [lia | exact H2]].
        -- cbn [fst snd length]. split; [lia|].
           split; [intros _; split; [reflexivity | discriminate]|].
           intros k t Hk. apply Hlast in Hk as [-> ->].
           rewrite Nat.add_0_r, Hc, Hg. split; [reflexivity|]. right. auto.
      * cbn [fst snd length]. split; [lia|].
        split; [intros _; split; [reflexivity | discriminate]|].
        intros k t Hk. apply Hlast in Hk as [-> ->]. rewrite Nat.add_0_r, Hc. auto.
      * specialize (IH (S attempt) access_token). cbv zeta in IH.
        destruct (attempts connect get_valid_access_token remaining (S attempt)
                    access_token) as [o tokens].
        cbn [fst snd length] in *. destruct IH as (Hlen & Hhead & Hall).
        destruct (Hhead Hpos) as [Hh Hex].
        split; [lia|]. split; [intros _; split; [reflexivity | exact Hex]|].
        intros [|k] t Hk.
        -- injection Hk as <-. rewrite Nat.add_0_r, Hc. right.
           split; [exact Hne|]. cbn. destruct tokens; [discriminate|].
           injection Hh as ->. reflexivity.
        -- cbn in Hk. specialize (Hall k t Hk).
           replace (attempt + S k)%nat with (S attempt + k)%nat by lia.
           destruct (connect (S attempt + k) t) as [| | |e'].
           ++ destruct Hall as [H1 H2]. split; [lia | exact H2].
           ++ destruct (get_valid_access_token (S attempt + k)) as [t'|e'].
              ** destruct Hall as [(H1 & H2 & H3) | (H1 & H2)];
                   [left; repeat split; [lia | lia | exact H3]
                   | right; split; [lia | exact H2]].
              ** destruct Hall as [H1 [[H2 H3] | [H2 H3]]];
                   (split; [lia|]); [left | right]; split; auto; lia.
           ++ destruct Hall as [H1 H2]. split; [lia | exact H2].
           ++ destruct Hall as [(H1 & H2 & H3) | (H1 & H2)];
                [left; repeat split; [lia | lia | exact H3]
                | right; split; [lia | exact H2]].
Qed.

(** X30: The connection is attempted at least once and at most three
    times, first with the collector's token, and the loop never runs out
    without connecting or raising.  An attempt that connects ends the
    loop.  A [ConnectionError] that does not ask for a reconnect is
    raised again at once, whatever the attempt: it is never retried.  A
    request to reconnect is followed, before the third attempt, by an
    attempt with the token [get_valid_access_token] returns, and any
    other exception by an attempt with the same token; the third attempt
    raises what it gets. *)
Theorem connect_retry_policy (access_token : string) :
  let r := connect_with_retries connect get_valid_access_token access_token in
  (1 <= length (snd r) <= 3)%nat
  /\ head (snd r) = Some access_token
  /\ (forall t, fst r <> Exhausted t)
  /\ forall (k : nat) (t : string),
       snd r !! k = Some t ->
       match connect k t with
       | Connected => S k = length (snd r) /\ fst r = Broke t
       | ConnectionErrorRaised =>
           S k = length (snd r) /\ fst r = Raised ConnectionErrorRaised
       | ReconnectAsked =>
           match get_valid_access_token k with
           | Ret new_token =>
               (k = 2%nat /\ length (snd r) = 3%nat /\ fst r = Raised ReconnectAsked)
               \/ (k <> 2%nat /\ snd r !! S k = Some new_token)
           | Raise e =>
               S k = length (snd r)
               /\ (fst r = Raised ReconnectAsked /\ k = 2%nat
                   \/ fst r = TokenRaised e /\ k <> 2%nat)
           end
       | ExceptionRaised e =>
           (k = 2%nat /\ length (snd r) = 3%nat /\ fst r = Raised (ExceptionRaised e))
           \/ (k <> 2%nat /\ snd r !! S k = Some t)
       end.
Proof.
  cbv zeta. unfold connect_with_retries.
  destruct (attempts_spec 3 0 access_token) as (Hlen & Hhead & Hall).
  cbv zeta in Hlen, Hhead, Hall.
  destruct (Hhead ltac:(discriminate)) as [Hh Hex].
  split.
  { split; [|exact Hlen].
    destruct (snd (attempts connect get_valid_access_token 3 0 access_token));
      [discriminate | cbn; lia]. }
  split; [exact Hh|]. split; [exact Hex|].
  intros k t Hk. specialize (Hall k t Hk). cbn [Nat.add] in Hall.
  destruct (connect k t) as [| | |e]; [exact Hall | | exact Hall |].
  - destruct (get_valid_access_token k) as [new_token|e].
    + destruct Hall as [(H1 & H2 & H3) | (H1 & H2)];
        [left; repeat split; [lia | lia | exact H3] | right; split; [lia | exact H2]].
    + destruct Hall as [H1 [[H2 H3] | [H2 H3]]]; (split; [exact H1|]);
        [left | right]; split; auto; lia.
  - destruct Hall as [(H1 & H2 & H3) | (H1 & H2)];
      [left; repeat split; [lia | lia | exact H3] | right; split; [lia | exact H2]].
Qed.

End ConnectProperties.

Lemma connect_retry_policy_witness :
  fst (CollectorConnect.connect_with_retries refusing_connect
         (fun _ => Ret "access-1") "access-0")
  = CollectorConnect.Raised CollectorConnect.ConnectionErrorRaised.
Proof.
  destruct (connect_retry_policy refusing_connect (fun _ => Ret "access-1") "access-0")
    as (_ & _ & _ & Hall).
  exact (proj2 (Hall 0%nat "access-0" eq_refl)).
Defined.
